(** * crypto-converter: a shallow embedding of the ingestion and conversion core

    The development follows the layout of the Python package:

    - [models]   : [crypto_converter/db/models.py]   (the [Quote] row)
    - [session]  : [crypto_converter/db/session.py]  (ORM session, [get_session])
    - [crud]     : [crypto_converter/db/crud.py]
    - [routes]   : [crypto_converter/api/routes.py]  ([convert_currency])
    - [consumer] : [crypto_converter/consumer/main.py] ([chunked], [run_batch])

    Conventions.
    - A Python [float] is an IEEE-754 binary64 number: Rocq's primitive [float].
    - A naive [datetime] is an integer number of microseconds (its resolution),
      a [timedelta] likewise; [datetime.utcnow()] is an explicit argument [now].
    - A [str] is a [string], the bytes of its UTF-8 encoding; a [dict] is a
      [gmap]; a table is the list of its rows.
    - The two Python builtins the code calls on strings, [str.upper] and
      [float(...)], are the interface [Builtins]. *)

From Stdlib Require Import ZArith String Ascii Floats.
From stdpp Require Import gmap strings list.

Open Scope Z_scope.

(** ** Python builtins and time *)

Class Builtins := {
  (** [s.upper()] *)
  upper : string → string;
  (** [float(s)]: [None] stands for the [ValueError] raised on a string that
      is not a number. *)
  float_of_str : string → option float;
  (** [float('')] raises [ValueError]. *)
  float_of_str_empty : float_of_str "" = None;
}.

(** [timedelta(minutes=m)], [timedelta(days=d)] in microseconds. *)
Definition timedelta_minutes (m : Z) : Z := m * 60000000.
Definition timedelta_days (d : Z) : Z := d * 86400000000.

(** ** crypto_converter/config.py *)

Module config.

Record Settings := {
  QUOTE_SAVE_INTERVAL : Z;
  QUOTE_RETENTION_DAYS : Z;
  MAX_STREAMS_PER_CONN : Z;
}.

Definition settings : Settings :=
  {| QUOTE_SAVE_INTERVAL := 30; QUOTE_RETENTION_DAYS := 7; MAX_STREAMS_PER_CONN := 800 |}.

End config.

(** ** crypto_converter/db/models.py *)

Module models.

Record Quote := {
  id : Z;
  base : string;
  quote : string;
  price : float;
  timestamp : Z;
}.

Definition with_price (q : Quote) (p : float) : Quote :=
  {| id := id q; base := base q; quote := quote q; price := p; timestamp := timestamp q |}.

End models.

(** ** crypto_converter/db/session.py

    An [AsyncSession] works on its own transaction.  [committed] is the table
    as stored; [working] is the table as this session sees it: the stored rows
    with the session's own uncommitted changes (attribute assignments on loaded
    objects, added objects, bulk deletes) applied.  The session is created with
    the default [autoflush=True], so every statement it executes sees exactly
    [working].  [commit] stores [working]; closing the session without a commit
    rolls the transaction back, which drops [working]. [executed] is the trace
    of statements sent to the database. *)

Module session.

Import models.

Inductive Statement :=
| Select (base quote : string) (upto : option Z)
| Insert (row : Quote)
| Delete (cutoff : Z).

Record Session := {
  committed : list Quote;
  working : list Quote;
  executed : list Statement;
}.

(** [AsyncSessionLocal()] on a database whose table is [db]. *)
Definition AsyncSessionLocal (db : list Quote) : Session :=
  {| committed := db; working := db; executed := [] |}.

(** What the code raises. [HTTPException] is FastAPI's; a request that fails
    the declared [Query] constraints is answered by the framework with
    [RequestValidationError] (status 422) without the handler being called. *)
Inductive Failure :=
| HTTPException (status_code : Z) (detail : string)
| RequestValidationError.

Definition status (f : Failure) : Z :=
  match f with
  | HTTPException code _ => code
  | RequestValidationError => 422
  end.

(** The [detail] of an [HTTPException]; the detail of a validation error is a
    structured list, which is not modelled. *)
Definition detail (f : Failure) : option string :=
  match f with
  | HTTPException _ d => Some d
  | RequestValidationError => None
  end.

(** Code that runs against a session and may raise: the session survives a
    raise (it is the caller, [get_session], that closes it). *)
Definition Orm (A : Type) : Type := Session → (Failure + A) * Session.

#[global] Instance orm_ret : MRet Orm := λ A x s, (inr x, s).

#[global] Instance orm_bind : MBind Orm := λ A B f m s,
  match m s with
  | (inl e, s') => (inl e, s')
  | (inr a, s') => f a s'
  end.

Definition raise {A} (e : Failure) : Orm A := λ s, (inl e, s).

(** [await session.execute(stmt)] for a statement that reads: the rows seen are
    those of [working]. *)
Definition execute_read {A} (stmt : Statement) (read : list Quote → A) : Orm A := λ s,
  (inr (read (working s)),
   {| committed := committed s; working := working s; executed := executed s ++ [stmt] |}).

(** [await session.execute(stmt)] for a statement that changes rows. *)
Definition execute_write (stmt : Statement) (write : list Quote → list Quote) : Orm unit := λ s,
  (inr (),
   {| committed := committed s; working := write (working s); executed := executed s ++ [stmt] |}).

(** [q.price = p] on an object [q] loaded in the session: the session's object
    is the one the caller holds, so the session's view of that row changes too. *)
Definition set_price (q : Quote) (p : float) : Orm Quote := λ s,
  (inr (with_price q p),
   {| committed := committed s;
      working := (λ r, if decide (id r = id q) then with_price r p else r) <$> working s;
      executed := executed s |}).

(** [await session.commit()] *)
Definition commit : Orm unit := λ s,
  (inr (), {| committed := working s; working := working s; executed := executed s |}).

(** What a request leaves behind. *)
Record Outcome (A : Type) := {
  result : Failure + A;
  database : list Quote;
  statements : list Statement;
}.
#[global] Arguments result {A} _.
#[global] Arguments database {A} _.
#[global] Arguments statements {A} _.

(** [get_session]: [async with AsyncSessionLocal() as session: yield session].
    The handler runs on a fresh session, which is closed when the handler
    returns or raises; nothing is committed on the way out. *)
Definition get_session {A} (db : list Quote) (handler : Orm A) : Outcome A :=
  let '(r, s) := handler (AsyncSessionLocal db) in
  {| result := r; database := committed s; statements := executed s |}.

End session.

(** ** crypto_converter/db/crud.py *)

Module crud.

Import models session.

(** [.order_by(Quote.timestamp.desc()).limit(1)] with [scalar_one_or_none()]:
    a row of greatest timestamp, [None] when there is no row.  Among rows of
    equal greatest timestamp the database is free to choose; the model takes
    the one stored first. *)
Definition later (best : option Quote) (r : Quote) : option Quote :=
  match best with
  | None => Some r
  | Some b => if bool_decide (timestamp b < timestamp r) then Some r else Some b
  end.

Definition order_by_timestamp_desc_limit_1 (rows : list Quote) : option Quote :=
  foldl later None rows.

(** [select(Quote).where(Quote.base == base, Quote.quote == quote)] *)
Definition select_pair (b q : string) (rows : list Quote) : list Quote :=
  filter (λ r, base r = b ∧ quote r = q) rows.

(** [... .where(..., Quote.timestamp <= ts)] *)
Definition select_pair_upto (b q : string) (ts : Z) (rows : list Quote) : list Quote :=
  filter (λ r, base r = b ∧ quote r = q ∧ timestamp r ≤ ts) rows.

Definition latest_row (b q : string) (rows : list Quote) : option Quote :=
  order_by_timestamp_desc_limit_1 (select_pair b q rows).

Definition row_at (b q : string) (ts : Z) (rows : list Quote) : option Quote :=
  order_by_timestamp_desc_limit_1 (select_pair_upto b q ts rows).

(** The integer primary key of an inserted row: one more than the greatest
    key in the table. *)
Definition next_id (rows : list Quote) : Z := 1 + foldr Z.max 0 (id <$> rows).

(** [save_quote] for a price the store accepts.  The column [price] is not
    nullable and the SQLite driver binds a NaN as NULL, so a save of a NaN
    raises [IntegrityError] and stores nothing: that case is outside this
    definition, and the statements on [save_quote] assume a price that is a
    number ([vocabulary.is_number]) or that no store operation raises. *)
Definition save_quote (now : Z) (b q : string) (p : float) : Orm unit :=
  let row := {| id := 0; base := b; quote := q; price := p; timestamp := now |} in
  execute_write (Insert row)
    (λ rows, rows ++ [{| id := next_id rows; base := b; quote := q; price := p; timestamp := now |}]);;
  commit.

Definition get_latest_quote (b q : string) : Orm (option Quote) :=
  execute_read (Select b q None) (latest_row b q).

Definition get_quote_at (b q : string) (ts : Z) : Orm (option Quote) :=
  execute_read (Select b q (Some ts)) (row_at b q ts).

(** [cleanup_old_quotes] with the cutoff computed in unbounded integers.
    Python's [datetime] ends at [vocabulary.datetime_max] and begins at year
    1; a cutoff beyond either end makes the subtraction raise
    [OverflowError], and then nothing is deleted.  A cutoff before
    [vocabulary.datetime_min] deletes nothing here either, no row being
    older; a cutoff after [datetime_max] is outside this definition. *)
Definition cleanup_old_quotes (cfg : config.Settings) (now : Z) : Orm unit :=
  let cutoff := now - timedelta_days (config.QUOTE_RETENTION_DAYS cfg) in
  execute_write (Delete cutoff) (filter (λ r, ¬ timestamp r < cutoff));;
  commit.

End crud.

(** ** crypto_converter/api/routes.py *)

Module routes.

Import session.

(** The JSON object [convert_currency] returns. *)
Record Conversion := {
  base : string;
  quote : string;
  rate : float;
  amount_in : float;
  amount_out : float;
  timestamp : Z;
  inverted : bool;
}.

(** The three failures the resolver raises, under the names of the error
    kinds they implement. *)
Definition PairNotAvailable : Failure :=
  HTTPException 404 "Conversion not available for this pair".
Definition ZeroPriceInversion : Failure :=
  HTTPException 400 "invalid_quote_zero_price".
Definition StaleQuote : Failure :=
  HTTPException 400 "quotes_outdated".

Definition convert_currency `{Builtins} (now : Z) (amount : float)
    (from_currency to_currency : string) (timestamp : option Z) : Orm Conversion :=
  let base := upper from_currency in
  let quote := upper to_currency in
  (* 1) Try direct quote *)
  q ← match timestamp with
      | Some ts => crud.get_quote_at base quote ts
      | None => crud.get_latest_quote base quote
      end;
  (* 2) If not found, try reverse and invert *)
  '(q, inverted) ←
    match q with
    | Some _ => mret (q, false)
    | None =>
        let '(rev_base, rev_quote) := (quote, base) in
        q ← match timestamp with
            | Some ts => crud.get_quote_at rev_base rev_quote ts
            | None => crud.get_latest_quote rev_base rev_quote
            end;
        match q with
        | Some r =>
            if PrimFloat.eqb (models.price r) 0 then raise ZeroPriceInversion
            else r' ← set_price r (1 / models.price r)%float; mret (Some r', true)
        | None => mret (None, false)
        end
    end;
  match q with
  | None => raise PairNotAvailable
  | Some q =>
      (* Freshness check only for "latest" *)
      match timestamp with
      | None =>
          if bool_decide (timedelta_minutes 1 < now - models.timestamp q)
          then raise StaleQuote else mret ()
      | Some _ => mret ()
      end;;
      let converted_amount := (amount * models.price q)%float in
      mret {| base := base; quote := quote; rate := models.price q;
              amount_in := amount; amount_out := converted_amount;
              timestamp := models.timestamp q; inverted := inverted |}
  end.

(** The query parameters of [GET /convert], already decoded. *)
Record Request := {
  amount : float;
  from_currency : string;
  to_currency : string;
  at_timestamp : option Z;
}.

(** The declared constraints: [amount: float = Query(..., gt=0)] and
    [min_length=2, max_length=10] on [from] and [to]. *)
Definition gt_0 (x : float) : bool := PrimFloat.ltb 0 x.

(** [len(s)] counts code points: the bytes of the UTF-8 encoding that are
    not continuation bytes [10xxxxxx]. *)
Definition continuation (c : ascii) : bool :=
  let n := N_of_ascii c in ((128 <=? n) && (n <? 192))%N.

Fixpoint len (s : string) : nat :=
  match s with
  | EmptyString => 0
  | String c rest => if continuation c then len rest else S (len rest)
  end.

Definition length_2_10 (s : string) : bool :=
  bool_decide (2 ≤ len s ≤ 10)%nat.

Definition valid (r : Request) : bool :=
  gt_0 (amount r) && length_2_10 (from_currency r) && length_2_10 (to_currency r).

(** [GET /convert] up to the handler's return: the session dependency is
    opened, the parameters are validated, and the handler runs only on a
    valid request.  [result] is what the handler returns or raises, before
    the framework renders it: an answer holding a float that is not finite
    is refused by the JSON encoder and the client is sent status 500. *)
Definition convert `{Builtins} (now : Z) (r : Request) (db : list models.Quote)
    : Outcome Conversion :=
  get_session db
    (if valid r
     then convert_currency now (amount r) (from_currency r) (to_currency r) (at_timestamp r)
     else raise RequestValidationError).

End routes.

(** ** crypto_converter/consumer/main.py *)

Module consumer.

(** [range(start, stop, step)]: [None] is the [ValueError] raised for a zero
    step. *)
Definition range_len (start stop step : Z) : Z :=
  if 0 <? step
  then (if start <? stop then (stop - start - 1) / step + 1 else 0)
  else (if stop <? start then (start - stop - 1) / (- step) + 1 else 0).

Definition range (start stop step : Z) : option (list Z) :=
  if step =? 0 then None
  else Some ((λ k, start + Z.of_nat k * step) <$> seq 0 (Z.to_nat (range_len start stop step))).

(** [l[i:j]]: a negative index counts from the end, and both ends are clamped
    to the list. *)
Definition slice_index (len i : Z) : Z :=
  if i <? 0 then Z.max 0 (i + len) else Z.min i len.

Definition slice {A} (l : list A) (i j : Z) : list A :=
  let len := Z.of_nat (length l) in
  let lo := slice_index len i in
  let hi := slice_index len j in
  take (Z.to_nat (hi - lo)) (drop (Z.to_nat lo) l).

(** [chunked(seq, n)], as consumed by [list(...)]. *)
Definition chunked {A} (seq : list A) (n : Z) : option (list (list A)) :=
  match range 0 (Z.of_nat (length seq)) n with
  | Some starts => Some ((λ i, slice seq i (i + n)) <$> starts)
  | None => None
  end.

(** A discovered market [(base, quote, symbol_lc)], the key of [latest], and a
    decoded stream message: a JSON object whose fields, where present, are
    strings (['s'] the symbol, ['c'] the last price). *)
Abbreviation Market := (string * string * string)%type.
Abbreviation Pair := (string * string)%type.
Abbreviation Msg := (gmap string string).

(** [{(b + q).upper(): (b, q) for (b, q, _) in batch}]: on equal keys the
    later market wins. *)
Definition sym_to_pair `{Builtins} (batch : list Market) : gmap string Pair :=
  foldl (λ d m, let '(b, q, _) := m in <[upper (String.append b q) := (b, q)]> d) ∅ batch.

(** The body of [async for msg in subscribe_tickers(symbols_lc)]. *)
Definition on_message `{Builtins} (table : gmap string Pair) (latest : gmap Pair float)
    (msg : Msg) : gmap Pair float :=
  match msg !! "s", msg !! "c" with
  | Some sym_upper, Some price_str =>
      (* [not sym_upper or not price_str]: an empty string is falsy *)
      if String.eqb sym_upper "" || String.eqb price_str "" then latest
      else
        match table !! sym_upper with
        | None => latest
        | Some pair_ =>
            match float_of_str price_str with
            | Some x => <[pair_ := x]> latest
            | None => latest (* except ValueError: continue *)
            end
        end
  | _, _ => latest
  end.

Definition stream `{Builtins} (table : gmap string Pair) (latest : gmap Pair float)
    (msgs : list Msg) : gmap Pair float :=
  foldl (on_message table) latest msgs.

(** One pass of the [while True] loop of [run_batch] is one connection
    attempt; what the outside world decides about it is: the messages that
    arrive before it ends, and how it ends.  [Failed] covers every
    [Exception], the [ConnectionError] raised when the stream ends included;
    [Cancelled] is a [CancelledError] while connecting or streaming.
    [cancelled_asleep] tells whether the cancellation arrives during the
    [asyncio.sleep(backoff)] of the handler, which leaves the loop too. *)
Inductive Ending := Failed | Cancelled.

Record Attempt := {
  inbound : list Msg;
  ending : Ending;
  cancelled_asleep : bool;
}.

(** The variables of [run_batch], and the arguments of the calls to
    [asyncio.sleep] made so far by the reconnect handler. *)
Record Supervisor := {
  latest : gmap Pair float;
  backoff : Z;
  slept : list Z;
}.

(** One pass of the loop; the boolean tells whether the loop goes on. *)
Definition attempt `{Builtins} (table : gmap string Pair) (st : Supervisor) (a : Attempt)
    : Supervisor * bool :=
  let backoff := 1 in
  let latest := stream table (latest st) (inbound a) in
  match ending a with
  | Cancelled => ({| latest := latest; backoff := backoff; slept := slept st |}, false)
  | Failed =>
      let slept := slept st ++ [backoff] in
      if cancelled_asleep a
      then ({| latest := latest; backoff := backoff; slept := slept |}, false)
      else ({| latest := latest; backoff := Z.min (backoff * 2) 30; slept := slept |}, true)
  end.

Fixpoint supervise `{Builtins} (table : gmap string Pair) (st : Supervisor)
    (attempts : list Attempt) : Supervisor :=
  match attempts with
  | [] => st
  | a :: rest =>
      let '(st', continue) := attempt table st a in
      if continue then supervise table st' rest else st'
  end.

(** [run_batch(batch)] over the attempts the environment grants it (the saver
    task it starts alongside is not part of this model). *)
Definition run_batch `{Builtins} (batch : list Market) (attempts : list Attempt) : Supervisor :=
  supervise (sym_to_pair batch) {| latest := ∅; backoff := 1; slept := [] |} attempts.

End consumer.

(** ** crypto_converter/consumer/binance.py *)

Module binance.

Import consumer.

(** Two more builtins on strings: [s.lower()] and [s.strip()]. *)
Class TextBuiltins := {
  lower : string → string;
  strip : string → string;
}.

(** [s.split(sep)] for a separator of one character: the pieces between the
    separators, empty ones included; never an empty list. *)
Fixpoint split (sep : ascii) (s : string) : list string :=
  match s with
  | EmptyString => [EmptyString]
  | String c rest =>
      if Ascii.eqb c sep then EmptyString :: split sep rest
      else match split sep rest with
           | piece :: pieces => String c piece :: pieces
           | [] => [String c EmptyString]
           end
  end.

(** One entry of ["symbols"] in the answer of [/api/v3/exchangeInfo], with the
    keys the code reads; [None] is an absent key. *)
Record Symbol := {
  status : option string;
  permissions : option (list string);
  isSpotTradingAllowed : option bool;
  baseAsset : option string;
  quoteAsset : option string;
}.

(** [{q.strip().upper() for q in SUPPORTED_QUOTES.split(",") if q.strip()}] *)
Definition quote_filter `{Builtins, TextBuiltins} (SUPPORTED_QUOTES : string) : gset string :=
  list_to_set ((λ q, upper (strip q)) <$>
               filter (λ q, strip q ≠ EmptyString) (split ","%char SUPPORTED_QUOTES)).

(** [sym.get("status") == "TRADING"] *)
Definition status_ok (sym : Symbol) : bool := bool_decide (status sym = Some "TRADING").

(** [("SPOT" in sym.get("permissions", [])) or sym.get("isSpotTradingAllowed", False)] *)
Definition spot_ok (sym : Symbol) : bool :=
  bool_decide ("SPOT" ∈ default [] (permissions sym)) || default false (isSpotTradingAllowed sym).

(** The loop over [data.get("symbols", [])], [pairs] being the list built so
    far; [None] is the [KeyError] of [sym["baseAsset"]] or
    [sym["quoteAsset"]]. *)
Fixpoint collect `{Builtins, TextBuiltins} (filt : gset string) (symbols : list Symbol)
    (pairs : list Market) : option (list Market) :=
  match symbols with
  | [] => Some pairs
  | sym :: rest =>
      if negb (status_ok sym && spot_ok sym) then collect filt rest pairs
      else
        match baseAsset sym with
        | None => None
        | Some base_asset =>
            let base := upper base_asset in
            match quoteAsset sym with
            | None => None
            | Some quote_asset =>
                let quote := upper quote_asset in
                if bool_decide (filt ≠ ∅ ∧ quote ∉ filt) then collect filt rest pairs
                else
                  let symbol_lc := lower (String.append base quote) in
                  collect filt rest (pairs ++ [(base, quote, symbol_lc)])
            end
        end
  end.

(** [fetch_spot_pairs()], from the decoded answer on: [symbols] is
    [data.get("symbols", [])]; the HTTP exchange that produces it is outside
    the model. *)
Definition fetch_spot_pairs `{Builtins, TextBuiltins} (SUPPORTED_QUOTES : string)
    (symbols : list Symbol) : option (list Market) :=
  collect (quote_filter SUPPORTED_QUOTES) symbols [].

(** [run_consumer()], from the discovered pairs on: the batches for which a
    [run_batch] task is started.  No pair, no batch; [None] is the
    [ValueError] of [chunked] with a limit of zero. *)
Definition run_consumer (cfg : config.Settings) (pairs : list Market)
    : option (list (list Market)) :=
  match pairs with
  | [] => Some []
  | _ => chunked pairs (config.MAX_STREAMS_PER_CONN cfg)
  end.

End binance.

(** ** The [saver] task of [run_batch]

    One pass of its [while True] loop.  What the outside world decides about
    a pass: the entries of [latest] when the pass looks at it
    ([list(latest.items())], each with the clock reading of its
    [save_quote]), the clock reading of the cleanup, and whether one of the
    store operations raises. *)

Module saver.

Import session consumer.

(** [asyncio.sleep(0.01)] and [asyncio.sleep(settings.QUOTE_SAVE_INTERVAL)] *)
Inductive Nap := Poll | Interval (seconds : Z).

Record Pass := {
  items : list (Pair * float * Z);
  cleanup_now : Z;
  (** [Some k]: the store operation number [k] of the pass (the saves in
      order, then the cleanup, counted from 0) raises and changes nothing;
      a number beyond the operations of the pass means that none raises. *)
  raises_at : option nat;
}.

Record Saver := {
  first_flush_done : bool;
  database : list models.Quote;
  naps : list Nap;
}.

Fixpoint run_all (ops : list (Orm unit)) : Orm unit :=
  match ops with
  | [] => mret ()
  | op :: rest => op;; run_all rest
  end.

(** The store operations of one flush: [save_quote] for every entry, then
    [cleanup_old_quotes]. *)
Definition operations (cfg : config.Settings) (p : Pass) : list (Orm unit) :=
  ((λ item, let '((b, q), price, now) := item in crud.save_quote now b q price) <$> items p)
  ++ [crud.cleanup_old_quotes cfg (cleanup_now p)].

(** The body of the [try]: the table it leaves, and whether it ran to its
    end.  Every operation commits by itself, so what was done before an
    operation raises stays. *)
Definition flush (cfg : config.Settings) (p : Pass) (db : list models.Quote)
    : list models.Quote * bool :=
  let ops := operations cfg p in
  match raises_at p with
  | Some k =>
      if bool_decide (k < length ops)%nat
      then (session.database (get_session db (run_all (take k ops))), false)
      else (session.database (get_session db (run_all ops)), true)
  | None => (session.database (get_session db (run_all ops)), true)
  end.

Definition pass (cfg : config.Settings) (st : Saver) (p : Pass) : Saver :=
  if negb (first_flush_done st) then
    (* First flush ASAP once we have any price *)
    let '(db, done) :=
      match items p with
      | [] => (database st, false)
      | _ => flush cfg p (database st)
      end in
    {| first_flush_done := done; database := db; naps := naps st ++ [Poll] |}
  else
    (* Regular periodic flush *)
    let naps := naps st ++ [Interval (config.QUOTE_SAVE_INTERVAL cfg)] in
    match items p with
    | [] => {| first_flush_done := true; database := database st; naps := naps |}
    | _ => {| first_flush_done := true; database := (flush cfg p (database st)).1;
              naps := naps |}
    end.

(** The task over the passes it gets to make before it is cancelled. *)
Definition run (cfg : config.Settings) (db : list models.Quote) (passes : list Pass) : Saver :=
  foldl (pass cfg) {| first_flush_done := false; database := db; naps := [] |} passes.

End saver.

(** ** A concrete instance of the builtins, for worked examples

    On ASCII text [str.upper] maps [a]..[z] to [A]..[Z] and leaves every other
    character alone.  [decimal] reads an unsigned decimal numeral
    [d+] or [d*.d*] whose digits fit 53 bits and whose fraction has at most 18
    digits: there both integers are 63-bit numbers that a double represents
    exactly, and their quotient, rounded once, is the double [float(...)]
    returns.  Anything else is [None] here, also the signed, exponent,
    [inf] and [nan] spellings that [float(...)] reads. *)

Module example_builtins.

Definition upper_char (c : ascii) : ascii :=
  let n := N_of_ascii c in
  if ((97 <=? n) && (n <=? 122))%N then ascii_of_N (n - 32) else c.

Fixpoint ascii_upper (s : string) : string :=
  match s with
  | EmptyString => EmptyString
  | String c rest => String (upper_char c) (ascii_upper rest)
  end.

Definition digit (c : ascii) : option Z :=
  let n := Z.of_N (N_of_ascii c) in
  if (48 <=? n) && (n <=? 57) then Some (n - 48) else None.

(** [scan s mantissa fraction seen]: [fraction] is the number of digits read
    after the point, [None] before the point; [seen] tells whether a digit
    was read. *)
Fixpoint scan (s : string) (mantissa : Z) (fraction : option nat) (seen : bool)
    : option (Z * nat) :=
  match s with
  | EmptyString => if seen then Some (mantissa, default 0%nat fraction) else None
  | String c rest =>
      match digit c with
      | Some d => scan rest (10 * mantissa + d) (S <$> fraction) true
      | None =>
          if Ascii.eqb c "."%char
          then match fraction with
               | None => scan rest mantissa (Some 0%nat) seen
               | Some _ => None
               end
          else None
      end
  end.

Definition decimal (s : string) : option float :=
  '(m, k) ← scan s 0 None false;
  if (m <? 2 ^ 53) && bool_decide (k ≤ 18)%nat
  then Some (PrimFloat.of_uint63 (Uint63.of_Z m) / PrimFloat.of_uint63 (Uint63.of_Z (10 ^ Z.of_nat k)))%float
  else None.

#[export] Instance ascii_builtins : Builtins :=
  {| upper := ascii_upper; float_of_str := decimal; float_of_str_empty := eq_refl |}.

End example_builtins.

(** ** The same for [lower] and [strip]

    On ASCII text [str.lower] maps [A]..[Z] to [a]..[z], and [str.strip]
    removes the blanks (space, tab, line feed, vertical tab, form feed,
    carriage return) at both ends. *)

Module example_text.

Import binance.

Definition lower_char (c : ascii) : ascii :=
  let n := N_of_ascii c in
  if ((65 <=? n) && (n <=? 90))%N then ascii_of_N (n + 32) else c.

Fixpoint ascii_lower (s : string) : string :=
  match s with
  | EmptyString => EmptyString
  | String c rest => String (lower_char c) (ascii_lower rest)
  end.

Definition blank (c : ascii) : bool :=
  let n := N_of_ascii c in
  ((n =? 32) || ((9 <=? n) && (n <=? 13)))%N.

Fixpoint lstrip (s : string) : string :=
  match s with
  | EmptyString => EmptyString
  | String c rest => if blank c then lstrip rest else s
  end.

Fixpoint rstrip (s : string) : string :=
  match s with
  | EmptyString => EmptyString
  | String c rest =>
      match rstrip rest with
      | EmptyString => if blank c then EmptyString else String c EmptyString
      | kept => String c kept
      end
  end.

#[export] Instance ascii_text : TextBuiltins :=
  {| lower := ascii_lower; strip := λ s, rstrip (lstrip s) |}.

(** Entries of an [exchangeInfo] answer. *)
Definition listed (state : string) (spot : bool) (b q : string) : Symbol :=
  {| status := Some state; permissions := Some (if spot then ["SPOT"] else ["MARGIN"]);
     isSpotTradingAllowed := None; baseAsset := Some b; quoteAsset := Some q |}.

Definition nameless : Symbol :=
  {| status := Some "BREAK"; permissions := None; isSpotTradingAllowed := None;
     baseAsset := None; quoteAsset := None |}.

Definition exchange : list Symbol :=
  [listed "TRADING" true "BTC" "USDT"; listed "BREAK" true "LTC" "USDT"; nameless;
   listed "TRADING" true "ETH" "BTC"; listed "TRADING" false "XRP" "USDT";
   listed "TRADING" true "eth" "usdc"].

End example_text.

(** ** Data of the worked examples *)

Module examples.

Import models example_builtins.

(** A clock reading, in microseconds. *)
Definition t0 : Z := 1700000000000000.

Definition btc_usdt : Quote :=
  {| id := 1; base := "BTC"; quote := "USDT"; price := 50000; timestamp := t0 |}.

(** [0.2] is the double [0x1.999999999999ap-3]. *)
Definition doge_usdt (ts : Z) : Quote :=
  {| id := 1; base := "DOGE"; quote := "USDT"; price := 0x1.999999999999ap-3; timestamp := ts |}.

Definition btc_usdt_old : Quote :=
  {| id := 1; base := "BTC"; quote := "USDT"; price := 40000;
     timestamp := t0 - timedelta_minutes 2 |}.

(** The row stored after [btc_usdt_old], and a row of another pair. *)
Definition btc_usdt_new : Quote :=
  {| id := 2; base := "BTC"; quote := "USDT"; price := 50000; timestamp := t0 |}.

Definition eth_usdt : Quote :=
  {| id := 3; base := "ETH"; quote := "USDT"; price := 1800;
     timestamp := t0 + timedelta_minutes 5 |}.

(** A row whose price is zero. *)
Definition usdt_doge_zero : Quote :=
  {| id := 1; base := "USDT"; quote := "DOGE"; price := 0; timestamp := t0 |}.

Definition markets : list consumer.Market :=
  [("BTC", "USDT", "btcusdt"); ("ETH", "USDT", "ethusdt")].

Definition ticker (s c : string) : consumer.Msg := <["s" := s]> (<["c" := c]> ∅).

(** Two ticks, a frame with no fields, a price that is not a number, a
    symbol outside the batch, and a later tick for the first pair. *)
Definition frames : list consumer.Msg :=
  [ticker "BTCUSDT" "50000.00"; ticker "ETHUSDT" "1800.50"; ∅;
   ticker "BTCUSDT" "oops"; ticker "XRPUSDT" "1.0"; ticker "BTCUSDT" "50001.00"].

End examples.

(** ** Passes of the saver and attempts of the supervisor, for the examples *)

Module example_runs.

Import consumer saver examples.

Definition entries : list (Pair * float * Z) :=
  [(("BTC", "USDT"), 50000%float, t0); (("ETH", "USDT"), 1800%float, t0 + 1)].

Definition idle : Pass := {| items := []; cleanup_now := t0; raises_at := None |}.

Definition full : Pass := {| items := entries; cleanup_now := t0 + 2; raises_at := None |}.

(** The second save raises. *)
Definition broken : Pass :=
  {| items := entries; cleanup_now := t0 + 2; raises_at := Some 1%nat |}.

Definition dropped (msgs : list Msg) : Attempt :=
  {| inbound := msgs; ending := Failed; cancelled_asleep := false |}.

Definition cancelled (msgs : list Msg) : Attempt :=
  {| inbound := msgs; ending := Cancelled; cancelled_asleep := false |}.

(** A trading spot symbol without quote asset. *)
Definition half_named : binance.Symbol :=
  {| binance.status := Some "TRADING"; binance.permissions := None;
     binance.isSpotTradingAllowed := Some true; binance.baseAsset := Some "ADA";
     binance.quoteAsset := None |}.

End example_runs.

(** ** Vocabulary of the statements on discovery and flushing *)

Module vocabulary.

Import consumer binance.

(** The symbol [sym] is let through by the loop of [fetch_spot_pairs], as
    the market [m]. *)
Definition let_through `{Builtins, TextBuiltins} (filt : gset string) (sym : Symbol)
    (m : Market) : Prop :=
  status_ok sym = true ∧ spot_ok sym = true ∧
  ∃ base_asset quote_asset,
    baseAsset sym = Some base_asset ∧ quoteAsset sym = Some quote_asset ∧
    (filt = ∅ ∨ upper quote_asset ∈ filt) ∧
    m = (upper base_asset, upper quote_asset,
         lower (String.append (upper base_asset) (upper quote_asset))).

(** What a stored row holds besides its key, and what an entry of a flush
    asks to store. *)
Definition row_data (r : models.Quote) : string * string * float * Z :=
  (models.base r, models.quote r, models.price r, models.timestamp r).

Definition item_data (item : Pair * float * Z) : string * string * float * Z :=
  let '((b, q), price, now) := item in (b, q, price, now).

(** A float that is a number: it equals itself, which NaN does not. *)
Definition is_number (p : float) : Prop := PrimFloat.eqb p p = true.

(** [datetime.max], 9999-12-31 23:59:59.999999, in microseconds from
    1970-01-01, the origin of the clock readings of the examples. *)
Definition datetime_max : Z := 253402300799999999.

(** [datetime.min], 0001-01-01 00:00:00, likewise. *)
Definition datetime_min : Z := -62135596800000000.

(** The save of one entry, as [saver.operations] lists it. *)
Definition save_entry (item : Pair * float * Z) : session.Orm unit :=
  let '((b, q), price, now) := item in crud.save_quote now b q price.

End vocabulary.

(** ** Vocabulary of the statements *)

Module spec.

Import session.

(** Step 2 of the resolution: the row looked up for [(b, q)], the most recent
    one at or before an explicit timestamp, the most recent one of all
    otherwise. *)
Definition looked_up (timestamp : option Z) (b q : string) (rows : list models.Quote)
    : option models.Quote :=
  match timestamp with
  | Some ts => crud.row_at b q ts rows
  | None => crud.latest_row b q rows
  end.

(** A row is stale at [now] when it is older than the freshness window. *)
Definition stale (now : Z) (r : models.Quote) : Prop :=
  timedelta_minutes 1 < now - models.timestamp r.

#[global] Instance stale_dec now r : Decision (stale now r).
Proof. unfold stale. apply _. Defined.

(** The answer built from a resolved row [r] at rate [rate]. *)
Definition answer (b q : string) (amount rate : float) (r : models.Quote) (inverted : bool)
    : routes.Conversion :=
  {| routes.base := b; routes.quote := q; routes.rate := rate;
     routes.amount_in := amount; routes.amount_out := (amount * rate)%float;
     routes.timestamp := models.timestamp r; routes.inverted := inverted |}.

(** Steps 3 and 4: [r] is the row the request resolves to, directly
    ([inverted = false]) or through the swapped pair, whose price must then
    not be zero ([inverted = true]). *)
Definition resolves (timestamp : option Z) (b q : string) (rows : list models.Quote)
    (r : models.Quote) (inverted : bool) : Prop :=
  (looked_up timestamp b q rows = Some r ∧ inverted = false) ∨
  (looked_up timestamp b q rows = None ∧ looked_up timestamp q b rows = Some r ∧
   PrimFloat.eqb (models.price r) 0 = false ∧ inverted = true).


(** The table a cleanup leaves when run in a session of its own, as the
    saver runs it. *)
Definition cleaned (cfg : config.Settings) (now : Z) (db : list models.Quote)
    : list models.Quote :=
  database (get_session db (crud.cleanup_old_quotes cfg now)).

(** The price a message carries for [pair]: the message has a symbol (a
    non-empty ['s'], which is what the code tests) that the lookup table
    sends to [pair], and a price field ['c'] that reads as a number. *)
Definition tick_for `{Builtins} (table : gmap string (string * string))
    (pair : string * string) (msg : gmap string string) : option float :=
  match msg !! "s", msg !! "c" with
  | Some sym, Some price_str =>
      if decide (sym ≠ "" ∧ table !! sym = Some pair) then float_of_str price_str else None
  | _, _ => None
  end.

(** Last write wins: the price of the last message that is a tick for
    [pair]. *)
Definition last_tick `{Builtins} (table : gmap string (string * string))
    (pair : string * string) (msgs : list (gmap string string)) : option float :=
  last (omap (tick_for table pair) msgs).

(** The value a run of session code produces, and the session it leaves. *)
Definition value {A} (run : (Failure + A) * Session) : Failure + A := run.1.
Definition left_session {A} (run : (Failure + A) * Session) : Session := run.2.

End spec.

(** ** Facts about the two lookups *)

Section lookups.

Import models crud.

Implicit Types (r : Quote) (rows : list Quote).

Lemma foldl_later_None acc rows : foldl later acc rows = None → acc = None ∧ rows = [].
Proof.
  revert acc. induction rows as [|x rows IH]; intros acc Hf; [done|].
  cbn in Hf. apply IH in Hf as [Hacc _].
  destruct acc as [a|]; cbn in Hacc; [case_bool_decide|]; discriminate.
Qed.

Lemma foldl_later_Some acc rows r :
  foldl later acc rows = Some r →
  (acc = Some r ∨ r ∈ rows) ∧
  (∀ a, acc = Some a → timestamp a ≤ timestamp r) ∧
  (∀ x, x ∈ rows → timestamp x ≤ timestamp r).
Proof.
  revert acc. induction rows as [|x rows IH]; intros acc Hf; cbn in Hf.
  - subst acc. split_and!; [by left|by intros ? [= ->]|by intros ? ?%elem_of_nil].
  - apply IH in Hf as (Hin & Hacc & Hall).
    assert (timestamp x ≤ timestamp r ∧ ∀ a, acc = Some a → timestamp a ≤ timestamp r)
      as [Hx Ha].
    { destruct acc as [a|]; cbn in Hacc.
      - case_bool_decide.
        + specialize (Hacc x eq_refl). split; [done|]. intros ? [= <-]. lia.
        + specialize (Hacc a eq_refl). split; [lia|]. by intros ? [= <-].
      - split; [by apply Hacc|done]. }
    split_and!; [|done|].
    + destruct Hin as [Hin|Hin]; [|right; by apply elem_of_cons; right].
      destruct acc as [a|]; cbn in Hin.
      * case_bool_decide; injection Hin as <-; [right; apply elem_of_cons|]; by left.
      * injection Hin as <-. right. apply elem_of_cons. by left.
    + intros y [->|Hy]%elem_of_cons; auto.
Qed.

(** The row found is one of the rows asked for, and none of them is newer. *)
Lemma order_by_timestamp_desc_limit_1_Some rows r :
  order_by_timestamp_desc_limit_1 rows = Some r →
  r ∈ rows ∧ ∀ x, x ∈ rows → timestamp x ≤ timestamp r.
Proof.
  intros (Hin & _ & Hall)%foldl_later_Some. split; [|done].
  by destruct Hin as [?|?].
Qed.

Lemma latest_row_Some b q rows r :
  latest_row b q rows = Some r →
  r ∈ rows ∧ base r = b ∧ quote r = q ∧
  ∀ x, x ∈ rows → base x = b → quote x = q → timestamp x ≤ timestamp r.
Proof.
  intros [Hin Hmax]%order_by_timestamp_desc_limit_1_Some.
  apply list_elem_of_filter in Hin as [[Hb Hq] Hin]. split_and!; try done.
  intros x Hx Hxb Hxq. apply Hmax, list_elem_of_filter. done.
Qed.

Lemma latest_row_None b q rows :
  latest_row b q rows = None ↔ ∀ x, x ∈ rows → ¬ (base x = b ∧ quote x = q).
Proof.
  split.
  - intros [_ Hnil]%foldl_later_None x Hx HP.
    revert Hx. eapply filter_nil_not_elem_of; [exact Hnil|exact HP].
  - intros Hno. unfold latest_row, select_pair.
    replace (filter _ rows) with (@nil Quote); [done|].
    symmetry. induction rows as [|x rows IH]; [done|].
    rewrite filter_cons_False by (apply Hno, elem_of_cons; by left).
    apply IH. intros y Hy. apply Hno, elem_of_cons. by right.
Qed.

(** A pair that has a row has a latest row: when [r] is a row of the pair
    and no row of the pair is newer, the lookup finds a row of the pair
    stored at the time of [r]. *)
Lemma latest_row_greatest b q rows r :
  r ∈ rows → base r = b → quote r = q →
  (∀ x, x ∈ rows → base x = b → quote x = q → timestamp x ≤ timestamp r) →
  ∃ r', latest_row b q rows = Some r' ∧ r' ∈ rows ∧ base r' = b ∧ quote r' = q ∧
        timestamp r' = timestamp r.
Proof.
  intros Hin Hb Hq Hmax.
  destruct (latest_row b q rows) as [r'|] eqn:Hl.
  - apply latest_row_Some in Hl as (Hin' & Hb' & Hq' & Hmax').
    exists r'. split_and!; try done.
    specialize (Hmax r' Hin' Hb' Hq'). specialize (Hmax' r Hin Hb Hq). lia.
  - exfalso. by apply (proj1 (latest_row_None b q rows) Hl r Hin).
Qed.




End lookups.

(** * The conversion resolver *)

Section resolver.

Import session spec routes.

Context `{Builtins}.

Implicit Types (s : Session) (r : models.Quote) (now : Z) (amount : float).

(** Run session code one step further, leaving lookups, float operations and
    the freshness window folded. *)
Ltac orm_simpl :=
  repeat (unfold mbind, orm_bind, mret, orm_ret, raise, crud.get_quote_at,
            crud.get_latest_quote, execute_read, execute_write, set_price, commit;
          cbn -[timedelta_minutes timedelta_days PrimFloat.eqb PrimFloat.ltb PrimFloat.div
                PrimFloat.mul crud.row_at crud.latest_row]).

(** What [convert_currency] returns, by cases on the two lookups. *)
Lemma convert_currency_value now amount from_currency to_currency timestamp s :
  value (convert_currency now amount from_currency to_currency timestamp s) =
  let b := upper from_currency in
  let q := upper to_currency in
  match looked_up timestamp b q (working s) with
  | Some r =>
      if bool_decide (timestamp = None ∧ stale now r) then inl StaleQuote
      else inr (answer b q amount (models.price r) r false)
  | None =>
      match looked_up timestamp q b (working s) with
      | Some r =>
          if PrimFloat.eqb (models.price r) 0 then inl ZeroPriceInversion
          else if bool_decide (timestamp = None ∧ stale now r) then inl StaleQuote
          else inr (answer b q amount (1 / models.price r)%float r true)
      | None => inl PairNotAvailable
      end
  end.
Proof.
  unfold convert_currency, value, looked_up, stale, answer.
  destruct timestamp as [ts|]; orm_simpl.
  - destruct (crud.row_at _ _ ts (working s)) as [r|]; orm_simpl; [reflexivity|].
    destruct (crud.row_at _ _ ts (working s)) as [r|]; orm_simpl; [|reflexivity].
    destruct (PrimFloat.eqb (models.price r) 0); reflexivity.
  - destruct (crud.latest_row _ _ (working s)) as [r|]; orm_simpl.
    + destruct (decide (timedelta_minutes 1 < now - models.timestamp r)) as [Hs|Hs].
      * rewrite !bool_decide_eq_true_2 by auto. reflexivity.
      * rewrite !bool_decide_eq_false_2 by tauto. reflexivity.
    + destruct (crud.latest_row _ _ (working s)) as [r|]; orm_simpl; [|reflexivity].
      destruct (PrimFloat.eqb (models.price r) 0); orm_simpl; [reflexivity|].
      destruct (decide (timedelta_minutes 1 < now - models.timestamp r)) as [Hs|Hs].
      * rewrite !bool_decide_eq_true_2 by auto. reflexivity.
      * rewrite !bool_decide_eq_false_2 by tauto. reflexivity.
Qed.

(** The stored table is not touched, whatever the outcome. *)
Lemma convert_currency_committed now amount from_currency to_currency timestamp s :
  committed (left_session (convert_currency now amount from_currency to_currency timestamp s))
  = committed s.
Proof.
  unfold convert_currency, left_session.
  destruct timestamp as [ts|]; orm_simpl.
  - destruct (crud.row_at _ _ ts (working s)) as [r|]; orm_simpl; [reflexivity|].
    destruct (crud.row_at _ _ ts (working s)) as [r|]; orm_simpl; [|reflexivity].
    destruct (PrimFloat.eqb (models.price r) 0); reflexivity.
  - destruct (crud.latest_row _ _ (working s)) as [r|]; orm_simpl.
    + case_bool_decide; reflexivity.
    + destruct (crud.latest_row _ _ (working s)) as [r|]; orm_simpl; [|reflexivity].
      destruct (PrimFloat.eqb (models.price r) 0); orm_simpl; [reflexivity|].
      case_bool_decide; reflexivity.
Qed.

(** C1. A request without timestamp for a pair that has a stored row, the
    latest of which is fresh.  [r] is a row of the table for the pair in
    upper case, no row of the pair is newer than [r], and [r] is not stale.
    Then the request is answered from a row [r'] of the pair stored at the
    time of [r], that is from a latest row: [rate = r'.price],
    [amount_in = amount], [amount_out = amount * rate], the timestamp of the
    row, [inverted = false]; and [r'] is [r] itself when [r] is the only row
    of the pair stored at that time. *)
Theorem convert_direct_latest now amount from_currency to_currency s r :
  let b := upper from_currency in
  let q := upper to_currency in
  r ∈ working s → models.base r = b → models.quote r = q →
  (∀ x, x ∈ working s → models.base x = b → models.quote x = q →
        models.timestamp x ≤ models.timestamp r) →
  ¬ stale now r →
  ∃ r', r' ∈ working s ∧ models.base r' = b ∧ models.quote r' = q ∧
        models.timestamp r' = models.timestamp r ∧
        ((∀ x, x ∈ working s → models.base x = b → models.quote x = q →
               models.timestamp x = models.timestamp r → x = r) → r' = r) ∧
        value (convert_currency now amount from_currency to_currency None s) =
          inr {| base := b; quote := q;
                 rate := models.price r'; amount_in := amount;
                 amount_out := (amount * models.price r')%float;
                 timestamp := models.timestamp r; inverted := false |}.
Proof.
  intros b q Hin Hb Hq Hmax Hfresh.
  destruct (latest_row_greatest b q (working s) r Hin Hb Hq Hmax)
    as (r' & Hrow & Hin' & Hb' & Hq' & Hts).
  exists r'. split_and!; try done.
  - intros Honly. by apply Honly.
  - rewrite convert_currency_value. cbn zeta. fold b q.
    unfold looked_up. rewrite Hrow.
    rewrite bool_decide_eq_false_2 by (unfold stale in *; rewrite Hts; tauto).
    unfold answer. by rewrite Hts.
Qed.

(** C2 (amended). When the direct lookup finds nothing and the lookup of the
    swapped pair finds [r]: a price of exactly zero is rejected with
    [ZeroPriceInversion], which is not the not-found failure; otherwise, on a
    request with an explicit timestamp or when [r] is not stale, the answer
    has [rate = 1 / r.price], [amount_out = amount * rate] and
    [inverted = true]; and a stale [r] on a request without timestamp is
    rejected with [StaleQuote]. *)
Theorem convert_inverse now amount from_currency to_currency timestamp s r :
  looked_up timestamp (upper from_currency) (upper to_currency) (working s) = None →
  looked_up timestamp (upper to_currency) (upper from_currency) (working s) = Some r →
  let out := value (convert_currency now amount from_currency to_currency timestamp s) in
  (PrimFloat.eqb (models.price r) 0 = true → out = inl ZeroPriceInversion) ∧
  (PrimFloat.eqb (models.price r) 0 = false →
   (timestamp = None → ¬ stale now r) →
   out = inr {| base := upper from_currency; quote := upper to_currency;
                rate := (1 / models.price r)%float; amount_in := amount;
                amount_out := (amount * (1 / models.price r))%float;
                timestamp := models.timestamp r; inverted := true |}) ∧
  (PrimFloat.eqb (models.price r) 0 = false → timestamp = None → stale now r →
   out = inl StaleQuote) ∧
  ZeroPriceInversion ≠ PairNotAvailable.
Proof.
  intros Hdirect Hswapped out. subst out.
  rewrite convert_currency_value. cbn zeta. rewrite Hdirect, Hswapped.
  split_and!.
  - intros ->. reflexivity.
  - intros -> Hfresh. rewrite bool_decide_eq_false_2 by tauto. reflexivity.
  - intros -> Hts Hstale. rewrite bool_decide_eq_true_2 by tauto. reflexivity.
  - discriminate.
Qed.


(** Every failure of the resolver is one of three, each with its cause. *)
Lemma convert_currency_raises now amount from_currency to_currency timestamp s f :
  let b := upper from_currency in
  let q := upper to_currency in
  value (convert_currency now amount from_currency to_currency timestamp s) = inl f →
  (f = PairNotAvailable ∧
     looked_up timestamp b q (working s) = None ∧
     looked_up timestamp q b (working s) = None) ∨
  (f = ZeroPriceInversion ∧
     looked_up timestamp b q (working s) = None ∧
     ∃ r, looked_up timestamp q b (working s) = Some r ∧
          PrimFloat.eqb (models.price r) 0 = true) ∨
  (f = StaleQuote ∧ timestamp = None ∧
     ∃ r inverted, resolves timestamp b q (working s) r inverted ∧ stale now r).
Proof.
  intros b q. rewrite convert_currency_value. cbn zeta. fold b q.
  destruct (looked_up timestamp b q (working s)) as [r|] eqn:Hdirect.
  - case_bool_decide as Hst; [|discriminate]. intros [= <-].
    destruct Hst as [-> Hstale]. right; right. split_and!; [done..|].
    exists r, false. split; [by left|done].
  - destruct (looked_up timestamp q b (working s)) as [r|] eqn:Hswapped.
    + destruct (PrimFloat.eqb (models.price r) 0) eqn:Hzero.
      * intros [= <-]. right; left. split_and!; [done..|]. by exists r.
      * case_bool_decide as Hst; [|discriminate]. intros [= <-].
        destruct Hst as [-> Hstale]. right; right. split_and!; [done..|].
        exists r, true. split; [by right|done].
    + intros [= <-]. by left.
Qed.

(** C6 (amended). When neither the direct lookup nor the lookup of the
    swapped pair finds a row, the request is rejected with not-found:
    status 404, detail [Conversion not available for this pair].  A swapped
    row of price zero is rejected with status 400 and detail
    [invalid_quote_zero_price], and a stale row on a request without
    timestamp with status 400 and detail [quotes_outdated].  The resolver
    raises nothing else, and each of the three only for its cause.  So the
    detail tells the three failures apart: two requests rejected with the
    same detail were rejected with the same failure.  The status does not:
    404 is the status of not-found alone, the other two share 400. *)
Theorem resolver_failure_kinds now amount from_currency to_currency timestamp s :
  let b := upper from_currency in
  let q := upper to_currency in
  let out := value (convert_currency now amount from_currency to_currency timestamp s) in
  (looked_up timestamp b q (working s) = None →
   looked_up timestamp q b (working s) = None →
     out = inl (HTTPException 404 "Conversion not available for this pair")) ∧
  (∀ r, looked_up timestamp b q (working s) = None →
        looked_up timestamp q b (working s) = Some r →
        PrimFloat.eqb (models.price r) 0 = true →
     out = inl (HTTPException 400 "invalid_quote_zero_price")) ∧
  (∀ r inverted, timestamp = None → resolves timestamp b q (working s) r inverted →
                 stale now r →
     out = inl (HTTPException 400 "quotes_outdated")) ∧
  (∀ f, out = inl f →
     (status f = 404 ∧ detail f = Some "Conversion not available for this pair" ∧
        looked_up timestamp b q (working s) = None ∧
        looked_up timestamp q b (working s) = None) ∨
     (status f = 400 ∧ detail f = Some "invalid_quote_zero_price" ∧
        looked_up timestamp b q (working s) = None ∧
        ∃ r, looked_up timestamp q b (working s) = Some r ∧
             PrimFloat.eqb (models.price r) 0 = true) ∨
     (status f = 400 ∧ detail f = Some "quotes_outdated" ∧ timestamp = None ∧
        ∃ r inverted, resolves timestamp b q (working s) r inverted ∧ stale now r)) ∧
  (∀ now' amount' from_currency' to_currency' timestamp' s' f f',
     out = inl f →
     value (convert_currency now' amount' from_currency' to_currency' timestamp' s') = inl f' →
     detail f = detail f' → f = f').
Proof.
  intros b q out. subst out. split_and!.
  - intros Hdirect Hswapped. rewrite convert_currency_value. cbn zeta. fold b q.
    by rewrite Hdirect, Hswapped.
  - intros r Hdirect Hswapped Hzero. rewrite convert_currency_value. cbn zeta. fold b q.
    by rewrite Hdirect, Hswapped, Hzero.
  - intros r inverted -> Hres Hstale. rewrite convert_currency_value. cbn zeta. fold b q.
    destruct Hres as [[-> _]|(-> & -> & -> & _)];
      by rewrite bool_decide_eq_true_2 by tauto.
  - intros f Hf. apply convert_currency_raises in Hf. fold b q in Hf.
    destruct Hf as [(-> & ? & ?)|[(-> & ? & ?)|(-> & ? & ?)]];
      [left|right; left|right; right]; by split_and!.
  - intros now' amount' from_currency' to_currency' timestamp' s' f f' Hf Hf' Hd.
    apply convert_currency_raises in Hf, Hf'.
    destruct Hf as [(-> & _)|[(-> & _)|(-> & _)]],
             Hf' as [(-> & _)|[(-> & _)|(-> & _)]]; done.
Qed.

(** C9. A conversion request leaves the stored rows as they were, whatever
    it answers: the handler never commits, on any session, and the request as
    served returns the database it was given.  (The reciprocal price written
    on the loaded row lives in the session only, which is closed without a
    commit.) *)
Theorem convert_is_read_only now amount from_currency to_currency timestamp :
  (∀ s, committed (left_session
          (convert_currency now amount from_currency to_currency timestamp s)) = committed s) ∧
  (∀ db, database (convert now {| routes.amount := amount; routes.from_currency := from_currency;
                                   routes.to_currency := to_currency;
                                   at_timestamp := timestamp |} db) = db).
Proof.
  split; [intros s; apply convert_currency_committed|].
  intros db. unfold convert, get_session. cbn [routes.amount routes.from_currency
    routes.to_currency at_timestamp].
  destruct (valid _); [|reflexivity].
  pose proof (convert_currency_committed now amount from_currency to_currency timestamp
                (AsyncSessionLocal db)) as Hc.
  unfold left_session in Hc.
  destruct (convert_currency _ _ _ _ _ _) as [res s']. exact Hc.
Qed.

(** The constraint [gt=0] refuses every amount that is less than or equal to
    zero. *)
Lemma gt_0_false_of_le_0 (x : float) : PrimFloat.leb x 0 = true → gt_0 x = false.
Proof.
  unfold gt_0. rewrite leb_spec, ltb_spec.
  change (Prim2SF 0) with (S754_zero false).
  destruct (Prim2SF x) as [[]|[]| |[] m e]; cbn; congruence.
Qed.

(** C10. A request whose amount is less than or equal to zero is answered
    with the validation failure, without any statement being executed: the
    answer is neither a conversion nor one of the resolver's failures, and
    the database is as before. *)
Theorem convert_rejects_non_positive_amount now (req : Request) db :
  PrimFloat.leb (routes.amount req) 0 = true →
  convert now req db =
    {| result := inl RequestValidationError; database := db; statements := [] |}.
Proof.
  intros Hle. unfold convert, valid. rewrite (gt_0_false_of_le_0 _ Hle). reflexivity.
Qed.

End resolver.

(** * Retention *)

Section retention.

Import models session spec.

Implicit Types (db : list Quote) (now : Z).

Lemma cleaned_eq cfg now db :
  cleaned cfg now db =
  filter (λ r, ¬ timestamp r < now - timedelta_days (config.QUOTE_RETENTION_DAYS cfg)) db.
Proof. reflexivity. Qed.

Lemma filter_all {A} (P : A → Prop) `{∀ x, Decision (P x)} (l : list A) :
  (∀ x, x ∈ l → P x) → filter P l = l.
Proof.
  induction l as [|x l IH]; intros HP; [done|].
  rewrite filter_cons_True by (apply HP, elem_of_cons; by left).
  f_equal. apply IH. intros y Hy. apply HP, elem_of_cons. by right.
Qed.

(** C7. A cleanup deletes exactly the rows whose timestamp is before
    [now - retention]: the rows left are the others, unchanged and in their
    order.  Run again at the same time it changes nothing, and run at any
    time it changes nothing on a table that has no row older than the
    retention window.  With the 7-day window of the settings, of a row 8
    days old and a row 1 day old it leaves exactly the second. *)
Theorem cleanup_old_quotes_retention cfg now db :
  let cutoff := now - timedelta_days (config.QUOTE_RETENTION_DAYS cfg) in
  let db' := cleaned cfg now db in
  (∀ r, r ∈ db' ↔ r ∈ db ∧ ¬ timestamp r < cutoff) ∧
  db' = filter (λ r, ¬ timestamp r < cutoff) db ∧
  cleaned cfg now db' = db' ∧
  (∀ now', (∀ r, r ∈ db' →
              ¬ timestamp r < now' - timedelta_days (config.QUOTE_RETENTION_DAYS cfg)) →
           cleaned cfg now' db' = db') ∧
  (∀ i j b q p p',
     let old := {| id := i; base := b; quote := q; price := p;
                   timestamp := now - timedelta_days 8 |} in
     let recent := {| id := j; base := b; quote := q; price := p';
                      timestamp := now - timedelta_days 1 |} in
     cleaned config.settings now [old; recent] = [recent]).
Proof.
  intros cutoff db'. subst db'. rewrite cleaned_eq. fold cutoff. split_and!.
  - intros r. rewrite list_elem_of_filter. tauto.
  - reflexivity.
  - rewrite cleaned_eq. fold cutoff. apply filter_all.
    intros r Hr. by apply list_elem_of_filter in Hr as [? _].
  - intros now' Hclean. rewrite cleaned_eq. by apply filter_all.
  - intros i j b q p p' old recent. rewrite cleaned_eq. subst old recent.
    unfold timedelta_days. cbn [config.QUOTE_RETENTION_DAYS config.settings].
    rewrite filter_cons_False by (cbn; lia).
    rewrite filter_cons_True by (cbn; lia). reflexivity.
Qed.

End retention.

(** * Batching *)

Section batching.

Import consumer.

Context {A : Type}.

Implicit Types (l : list A) (m c k : nat).

(** The batches of size [m] cut from [l], [c] of them. *)
Lemma concat_chunks l m a c :
  concat ((λ k, take m (drop (k * m) l)) <$> seq a c) = take (c * m) (drop (a * m) l).
Proof.
  revert a. induction c as [|c IH]; intros a; [done|].
  cbn [seq fmap list_fmap concat]. rewrite IH.
  replace (S a * m)%nat with (a * m + m)%nat by lia.
  rewrite <- drop_drop, take_take_drop. f_equal; lia.
Qed.

Lemma take_min_length l n : take (n `min` length l) l = take n l.
Proof.
  destruct (decide (n ≤ length l)%nat).
  - by rewrite Nat.min_l.
  - rewrite Nat.min_r by lia. by rewrite !take_ge by lia.
Qed.

Lemma slice_chunk l (M : Z) k :
  0 < M → (k * Z.to_nat M < length l)%nat →
  slice l (0 + Z.of_nat k * M) (0 + Z.of_nat k * M + M) =
  take (Z.to_nat M) (drop (k * Z.to_nat M) l).
Proof.
  intros HM Hk. unfold slice, slice_index.
  assert (0 ≤ Z.of_nat k * M) by nia.
  rewrite !(proj2 (Z.ltb_ge _ 0)) by lia.
  replace (Z.to_nat ((0 + Z.of_nat k * M) `min` Z.of_nat (length l)))
    with (k * Z.to_nat M)%nat by nia.
  rewrite <- (take_min_length (drop _ l) (Z.to_nat M)), length_drop. f_equal. nia.
Qed.

Lemma range_len_chunks (N M : Z) :
  0 ≤ N → 0 < M → range_len 0 N M = (N + M - 1) / M.
Proof.
  intros HN HM. unfold range_len. rewrite (proj2 (Z.ltb_lt 0 M)) by done.
  destruct (Z.ltb_spec 0 N).
  - replace (N + M - 1) with (N - 0 - 1 + 1 * M) by lia. by rewrite Z.div_add by lia.
  - replace N with 0 by lia. symmetry. apply Z.div_small. lia.
Qed.

Lemma ceiling_bounds (N M : Z) :
  0 ≤ N → 0 < M →
  let c := (N + M - 1) / M in
  0 ≤ c ∧ N ≤ c * M ∧ (0 < N → (c - 1) * M < N).
Proof.
  intros HN HM c.
  pose proof (Z.mul_div_le (N + M - 1) M HM).
  pose proof (Z.mul_succ_div_gt (N + M - 1) M HM).
  assert (0 ≤ c) by (apply Z.div_pos; lia).
  subst c. split_and!; [done|nia|nia].
Qed.

Lemma chunked_eq l (M : Z) :
  0 < M →
  chunked l M =
  Some ((λ k, take (Z.to_nat M) (drop (k * Z.to_nat M) l))
          <$> seq 0 (Z.to_nat ((Z.of_nat (length l) + M - 1) / M))).
Proof.
  intros HM. unfold chunked, range.
  rewrite (proj2 (Z.eqb_neq M 0)) by lia. f_equal.
  rewrite range_len_chunks by lia.
  rewrite <- list_fmap_compose. apply list_fmap_ext.
  intros i k [-> Hk]%lookup_seq. cbn in Hk |- *. apply slice_chunk; [done|].
  destruct (ceiling_bounds (Z.of_nat (length l)) M) as (? & ? & Hlt); [lia..|].
  destruct l as [|x l']; [cbn in *; rewrite Z.div_small in Hk by lia; lia|].
  cbn [length] in *. nia.
Qed.

(** C5. For a limit [M > 0], [chunked] yields [ceil(N / M)] batches of a
    list of [N] elements; batch [k] is the elements at the indices
    [k*M .. (k+1)*M - 1] that exist; every batch has [M] elements except
    possibly the last, which has at least one; the batches concatenated in
    order are the input; and no batch comes from the empty list. *)
Theorem chunked_batches l (M : Z) :
  0 < M →
  ∃ batches,
    chunked l M = Some batches ∧
    Z.of_nat (length batches) = (Z.of_nat (length l) + M - 1) / M ∧
    (∀ k batch, batches !! k = Some batch →
       batch = take (Z.to_nat M) (drop (k * Z.to_nat M) l) ∧
       (∀ i, (i < Z.to_nat M)%nat → batch !! i = l !! (k * Z.to_nat M + i)%nat) ∧
       (0 < length batch ≤ Z.to_nat M)%nat ∧
       (S k < length batches → length batch = Z.to_nat M)%nat) ∧
    concat batches = l ∧
    (l = [] → batches = []).
Proof.
  intros HM. eexists. split; [by apply chunked_eq|].
  set (m := Z.to_nat M). set (N := Z.of_nat (length l)).
  set (C := (N + M - 1) / M).
  destruct (ceiling_bounds N M) as (Hc0 & Hup & Hlow); [lia..|]. fold C in Hc0, Hup, Hlow.
  assert (Z.of_nat m = M) as Hm by (subst m; lia).
  assert (length l ≤ Z.to_nat C * m)%nat as Hcover.
  { apply Nat2Z.inj_le. rewrite Nat2Z.inj_mul, Hm, Z2Nat.id by done. done. }
  assert (∀ k, (k < Z.to_nat C)%nat → (k * m < length l)%nat) as Hin.
  { intros k Hk. assert (0 < N) as HN.
    { destruct (decide (N = 0)) as [HN0|]; [|lia]. exfalso.
      subst C. rewrite HN0, Z.div_small in Hk by lia. cbn in Hk. lia. }
    specialize (Hlow HN). apply Nat2Z.inj_lt. rewrite Nat2Z.inj_mul, Hm. fold N. nia. }
  split_and!.
  - rewrite length_fmap, length_seq. lia.
  - intros k batch Hk.
    apply list_lookup_fmap_Some in Hk as (k' & -> & Hk').
    apply lookup_seq in Hk' as [-> Hkc]. cbn in Hkc |- *.
    rewrite length_fmap, length_seq, length_take, length_drop.
    pose proof (Hin k Hkc).
    split_and!; [done| |lia|lia|].
    + intros i Hi. by rewrite lookup_take_lt, lookup_drop.
    + intros Hnext. specialize (Hin (S k) Hnext). lia.
  - rewrite concat_chunks, drop_0. by apply take_ge.
  - intros ->. subst C N. cbn. by rewrite Z.div_small by lia.
Qed.

End batching.

(** * Streaming a batch *)

Section streaming.

Import consumer spec.

Context `{Builtins}.

Implicit Types (table : gmap string Pair) (prices : gmap Pair float) (msg : Msg)
  (msgs : list Msg) (pair : Pair).

(** What one message does to the entry of one pair. *)
Lemma on_message_lookup table prices msg pair :
  on_message table prices msg !! pair =
  match tick_for table pair msg with
  | Some x => Some x
  | None => prices !! pair
  end.
Proof.
  unfold on_message, tick_for.
  destruct (msg !! "s") as [sym|]; [|done].
  destruct (msg !! "c") as [price_str|]; [|done].
  destruct (String.eqb_spec sym "") as [->|Hsym]; cbn [orb].
  { rewrite decide_False by (intros [? _]; done). done. }
  destruct (String.eqb_spec price_str "") as [->|Hprice].
  { rewrite float_of_str_empty. by case_decide. }
  destruct (table !! sym) as [pair'|] eqn:Hlook.
  - destruct (decide (pair' = pair)) as [->|Hne].
    + rewrite decide_True by done.
      destruct (float_of_str price_str); [by rewrite lookup_insert_eq|done].
    + rewrite decide_False by (intros [_ [= ?]]; done).
      destruct (float_of_str price_str); [by rewrite lookup_insert_ne|done].
  - rewrite decide_False by (intros [_ ?]; done). done.
Qed.

Lemma last_tick_snoc table pair msgs msg :
  last_tick table pair (msgs ++ [msg]) =
  match tick_for table pair msg with
  | Some x => Some x
  | None => last_tick table pair msgs
  end.
Proof.
  unfold last_tick. rewrite omap_app, last_app. cbn.
  by destruct (tick_for table pair msg).
Qed.

Lemma stream_lookup table prices msgs pair :
  stream table prices msgs !! pair =
  match last_tick table pair msgs with
  | Some x => Some x
  | None => prices !! pair
  end.
Proof.
  induction msgs as [|msg msgs IH] using rev_ind; [done|].
  unfold stream in *. rewrite foldl_snoc, on_message_lookup, last_tick_snoc, IH.
  by destruct (tick_for table pair msg).
Qed.

(** A message that is a tick for no pair leaves the map as it is. *)
Lemma on_message_unchanged table prices msg :
  (∀ pair, tick_for table pair msg = None) → on_message table prices msg = prices.
Proof.
  intros Hno. apply map_eq. intros pair. by rewrite on_message_lookup, Hno.
Qed.

(** C8. After the messages of a stream have been processed in their order
    of arrival, the map sends every pair to the price of the last message
    that is a tick for it (a symbol the batch's lookup table sends to the
    pair, and a price that reads as a number), and to what it held before
    when there is no such message.  A message without symbol or without
    price, with a price that does not read as a number, or with a symbol
    the lookup table does not know, leaves the map unchanged, and the
    messages after it are processed as if it had not come. *)
Theorem stream_last_write_wins (batch : list Market) prices msgs :
  let table := sym_to_pair batch in
  (∀ pair, stream table prices msgs !! pair =
           match last_tick table pair msgs with
           | Some x => Some x
           | None => prices !! pair
           end) ∧
  (∀ msg, (msg !! "s" = None ∨ msg !! "c" = None ∨
           (∃ price_str, msg !! "c" = Some price_str ∧ float_of_str price_str = None) ∨
           (∃ sym, msg !! "s" = Some sym ∧ table !! sym = None)) →
     on_message table prices msg = prices ∧
     ∀ before after,
       stream table prices (before ++ msg :: after) = stream table prices (before ++ after)).
Proof.
  intros table. split; [intros pair; apply stream_lookup|].
  intros msg Hskip.
  assert (∀ pair, tick_for table pair msg = None) as Hno.
  { intros pair. unfold tick_for.
    destruct Hskip as [->|[Hc|[(p & Hc & Hp)|(sym & Hs & Ht)]]]; [done|..].
    - rewrite Hc. by destruct (msg !! "s").
    - rewrite Hc, Hp. destruct (msg !! "s"); [by case_decide|done].
    - rewrite Hs. destruct (msg !! "c"); [|done].
      rewrite decide_False; [done|]. intros [_ Hsome]. congruence. }
  split; [by apply on_message_unchanged|].
  intros before after. unfold stream. rewrite !foldl_app. cbn [foldl].
  by rewrite on_message_unchanged.
Qed.

(** ** Reconnecting *)

Implicit Types (st : Supervisor) (attempts : list Attempt).

Lemma attempt_slept table st a :
  slept (attempt table st a).1 = slept st ∨ slept (attempt table st a).1 = slept st ++ [1].
Proof.
  unfold attempt. destruct (ending a); [|by left].
  destruct (cancelled_asleep a); by right.
Qed.

Lemma supervise_slept_one table st attempts :
  Forall (λ d, d = 1) (slept st) → Forall (λ d, d = 1) (slept (supervise table st attempts)).
Proof.
  revert st. induction attempts as [|a attempts IH]; intros st Hst; [done|].
  cbn [supervise].
  assert (Forall (λ d, d = 1) (slept (attempt table st a).1)) as Hstep.
  { destruct (attempt_slept table st a) as [->| ->]; [done|].
    apply Forall_app. split; [done|]. by apply Forall_singleton. }
  destruct (attempt table st a) as [st' continue]. cbn in Hstep.
  destruct continue; [by apply IH|done].
Qed.

Lemma supervise_failures table st (K : nat) inbound :
  slept (supervise table st
           (replicate K {| inbound := inbound; ending := Failed; cancelled_asleep := false |}))
  = slept st ++ replicate K 1.
Proof.
  revert st. induction K as [|K IH]; intros st; [by rewrite app_nil_r|].
  cbn [replicate supervise attempt ending cancelled_asleep consumer.inbound].
  rewrite IH. cbn [slept]. by rewrite <- app_assoc.
Qed.

(** C4 (what the code does). Every delay the reconnect handler sleeps is 1,
    whatever came before: [backoff] is set back to 1 at the top of every
    pass of the loop, before the connection is attempted, so the doubling
    done after the sleep is lost.  After [K] consecutive failures the delays
    slept are [K] times 1; the third is 1, where the doubling from 1 would
    make it [min (2^2) 30 = 4]. *)
Theorem run_batch_sleeps (batch : list Market) :
  (∀ attempts, Forall (λ d, d = 1) (slept (run_batch batch attempts))) ∧
  (∀ (K : nat) msgs,
     slept (run_batch batch
              (replicate K {| inbound := msgs; ending := Failed; cancelled_asleep := false |}))
     = replicate K 1) ∧
  (∀ msgs,
     slept (run_batch batch
              (replicate 3 {| inbound := msgs; ending := Failed; cancelled_asleep := false |}))
       !! 2%nat = Some 1 ∧
     Z.min (2 ^ 2) 30 = 4).
Proof.
  split_and!.
  - intros attempts. by apply supervise_slept_one.
  - intros K msgs. unfold run_batch. by rewrite supervise_failures.
  - intros msgs. unfold run_batch. by rewrite supervise_failures.
Qed.

End streaming.

(** * Worked examples *)

Section worked_examples.

Import session spec routes consumer example_builtins examples.

(** A table of three rows: (BTC, USDT, 40000) two minutes old, then
    (BTC, USDT, 50000) stored now, and a newer row of another pair.  Amount
    2 of btc in usdt: rate 50000, amount out 100000, not inverted. *)
Lemma convert_direct_latest_example :
  value (convert_currency t0 2 "btc" "usdt" None
           (AsyncSessionLocal [btc_usdt_old; btc_usdt_new; eth_usdt])) =
    inr {| base := "BTC"; quote := "USDT"; rate := 50000; amount_in := 2;
           amount_out := 100000; timestamp := t0; inverted := false |}.
Proof.
  set (s := AsyncSessionLocal [btc_usdt_old; btc_usdt_new; eth_usdt]).
  assert (btc_usdt_new ∈ working s) as Hin
    by (apply elem_of_cons; right; apply elem_of_cons; by left).
  assert (¬ stale t0 btc_usdt_new) as Hfresh by (unfold stale, timedelta_minutes; cbn; lia).
  assert (∀ x, x ∈ working s → models.base x = upper "btc" → models.quote x = upper "usdt" →
               models.timestamp x ≤ models.timestamp btc_usdt_new) as Hmax.
  { intros x Hx Hb _. apply list_elem_of_In in Hx.
    destruct Hx as [<-|[<-|[<-|[]]]]; [vm_compute; discriminate|reflexivity|].
    vm_compute in Hb. discriminate Hb. }
  assert (∀ x, x ∈ working s → models.base x = upper "btc" → models.quote x = upper "usdt" →
               models.timestamp x = models.timestamp btc_usdt_new → x = btc_usdt_new) as Honly.
  { intros x Hx Hb _ Hts. apply list_elem_of_In in Hx.
    destruct Hx as [<-|[<-|[<-|[]]]]; [|reflexivity|].
    - vm_compute in Hts. discriminate Hts.
    - vm_compute in Hb. discriminate Hb. }
  assert (models.base btc_usdt_new = upper "btc") as Hb by (vm_compute; reflexivity).
  assert (models.quote btc_usdt_new = upper "usdt") as Hq by (vm_compute; reflexivity).
  destruct (convert_direct_latest t0 2 "btc" "usdt" s btc_usdt_new Hin Hb Hq
              Hmax Hfresh) as (r' & _ & _ & _ & _ & Hr' & Hvalue).
  rewrite (Hr' Honly) in Hvalue. exact Hvalue.
Defined.

(** With only (DOGE, USDT, 0.2) stored, two minutes old, USDT to DOGE on a
    request without timestamp: no direct row, a swapped row of non-zero
    price, and the answer is [StaleQuote], not a rate. *)
Lemma convert_inverse_stale_row :
  let db := [doge_usdt (t0 - timedelta_minutes 2)] in
  crud.latest_row "USDT" "DOGE" db = None ∧
  crud.latest_row "DOGE" "USDT" db = Some (doge_usdt (t0 - timedelta_minutes 2)) ∧
  PrimFloat.eqb (models.price (doge_usdt (t0 - timedelta_minutes 2))) 0 = false ∧
  value (convert_currency t0 10 "USDT" "DOGE" None (AsyncSessionLocal db)) = inl StaleQuote.
Proof. repeat split. Qed.

(** With only (DOGE, USDT, 0.2) stored, USDT to DOGE for amount 10: rate 5,
    amount out 50, inverted. *)
Lemma convert_inverse_example :
  value (convert_currency t0 10 "USDT" "DOGE" None (AsyncSessionLocal [doge_usdt t0])) =
    inr {| base := "USDT"; quote := "DOGE"; rate := 5; amount_in := 10;
           amount_out := 50; timestamp := t0; inverted := true |}.
Proof.
  assert (¬ stale t0 (doge_usdt t0)) as Hfresh by (unfold stale, timedelta_minutes; cbn; lia).
  assert (looked_up None (upper "USDT") (upper "DOGE")
            (working (AsyncSessionLocal [doge_usdt t0])) = None) as Hdirect
    by (vm_compute; reflexivity).
  assert (looked_up None (upper "DOGE") (upper "USDT")
            (working (AsyncSessionLocal [doge_usdt t0])) = Some (doge_usdt t0)) as Hswapped
    by (vm_compute; reflexivity).
  destruct (convert_inverse t0 10 "USDT" "DOGE" None (AsyncSessionLocal [doge_usdt t0])
              (doge_usdt t0) Hdirect Hswapped) as (_ & Hrate & _).
  exact (Hrate eq_refl (λ _, Hfresh)).
Defined.


(** A swapped row of price zero and a stale row: two requests rejected for
    different causes, with different failures, under the same status. *)
Lemma resolver_failures_share_status :
  ∃ f g,
    value (convert_currency t0 1 "DOGE" "USDT" None (AsyncSessionLocal [usdt_doge_zero]))
      = inl f ∧
    value (convert_currency t0 1 "BTC" "USDT" None (AsyncSessionLocal [btc_usdt_old]))
      = inl g ∧
    f = ZeroPriceInversion ∧ g = StaleQuote ∧
    detail f = Some "invalid_quote_zero_price" ∧ detail g = Some "quotes_outdated" ∧
    status f = 400 ∧ status g = 400.
Proof. exists ZeroPriceInversion, StaleQuote. by split_and!. Qed.

(** ETH to USD on a table without either pair: status 404 and the not-found
    detail. *)
Lemma resolver_failure_kinds_example :
  value (convert_currency t0 1 "ETH" "USD" None (AsyncSessionLocal [btc_usdt_old; btc_usdt_new]))
    = inl (HTTPException 404 "Conversion not available for this pair").
Proof.
  apply (resolver_failure_kinds t0 1 "ETH" "USD" None
           (AsyncSessionLocal [btc_usdt_old; btc_usdt_new])); reflexivity.
Defined.

(** Amount 0 and amount -1 are refused before any lookup. *)
Lemma convert_rejects_non_positive_amount_example :
  let req x := {| amount := x; from_currency := "BTC"; to_currency := "USDT";
                  at_timestamp := None |} in
  convert t0 (req 0%float) [btc_usdt] =
    {| result := inl RequestValidationError; database := [btc_usdt]; statements := [] |} ∧
  convert t0 (req (-1)%float) [btc_usdt] =
    {| result := inl RequestValidationError; database := [btc_usdt]; statements := [] |}.
Proof.
  intros req. split.
  - apply (convert_rejects_non_positive_amount t0 (req 0%float) [btc_usdt]). reflexivity.
  - apply (convert_rejects_non_positive_amount t0 (req (-1)%float) [btc_usdt]). reflexivity.
Defined.

(** Inverse resolution writes the reciprocal on the session's copy of the
    row, and on nothing else: the stored row keeps its price. *)
Lemma inverse_resolution_stays_in_session :
  let run := convert_currency t0 10 "USDT" "DOGE" None (AsyncSessionLocal [doge_usdt t0]) in
  models.price <$> working (left_session run) = [5%float] ∧
  committed (left_session run) = [doge_usdt t0].
Proof. split; reflexivity. Qed.

(** Rows 8 days and 1 day old under the 7-day window: the first goes, the
    second stays, and a second cleanup changes nothing. *)
Lemma cleanup_old_quotes_retention_example :
  let old := {| models.id := 1; models.base := "BTC"; models.quote := "USDT";
                models.price := 10000; models.timestamp := t0 - timedelta_days 8 |} in
  let recent := {| models.id := 2; models.base := "BTC"; models.quote := "USDT";
                   models.price := 20000; models.timestamp := t0 - timedelta_days 1 |} in
  cleaned config.settings t0 [old; recent] = [recent] ∧
  cleaned config.settings t0 (cleaned config.settings t0 [old; recent]) = [recent] ∧
  cleaned config.settings (t0 + timedelta_minutes 1) (cleaned config.settings t0 [old; recent])
    = [recent].
Proof.
  intros old recent.
  destruct (cleanup_old_quotes_retention config.settings t0 [old; recent])
    as (_ & _ & Hagain & Hlater & Hexample).
  specialize (Hexample 1 2 "BTC" "USDT" 10000%float 20000%float).
  cbv zeta in Hexample. fold old recent in Hexample.
  rewrite Hexample in Hagain, Hlater. split_and!; [done|done|].
  apply Hlater. intros r Hr%list_elem_of_singleton Hold. subst r.
  vm_compute in Hold. discriminate Hold.
Defined.

(** Five markets under a limit of two: batches of 2, 2 and 1. *)
Lemma chunked_batches_example :
  ∃ batches,
    chunked ["a"; "b"; "c"; "d"; "e"] 2 = Some batches ∧
    Z.of_nat (length batches) = (5 + 2 - 1) / 2 ∧
    (∀ k batch, batches !! k = Some batch →
       batch = take 2 (drop (k * 2) ["a"; "b"; "c"; "d"; "e"]) ∧
       (∀ i, (i < 2)%nat → batch !! i = ["a"; "b"; "c"; "d"; "e"] !! (k * 2 + i)%nat) ∧
       (0 < length batch ≤ 2)%nat ∧
       (S k < length batches → length batch = 2)%nat) ∧
    concat batches = ["a"; "b"; "c"; "d"; "e"] ∧
    (["a"; "b"; "c"; "d"; "e"] = [] → batches = []).
Proof. apply (chunked_batches ["a"; "b"; "c"; "d"; "e"] 2). lia. Defined.

(** The limit of the settings on 1200 markets: batches of 800 and 400. *)
Lemma chunked_1200_by_800 :
  length <$> default [] (chunked (replicate 1200 ("BTC", "USDT", "btcusdt"))
                           (config.MAX_STREAMS_PER_CONN config.settings))
  = [800; 400]%nat.
Proof. vm_compute. reflexivity. Qed.

(** The frames of the example: BTC ends at the later tick, ETH at its only
    one; the frame without fields changes nothing. *)
Lemma stream_last_write_wins_example :
  let table := sym_to_pair markets in
  stream table ∅ frames !! ("BTC", "USDT") = Some 50001%float ∧
  stream table ∅ frames !! ("ETH", "USDT") = Some 1800.5%float ∧
  stream table ∅ frames !! ("XRP", "USDT") = None ∧
  on_message table ∅ ∅ = ∅.
Proof.
  intros table.
  destruct (stream_last_write_wins markets ∅ frames) as [Hlast Hskip].
  fold table in Hlast, Hskip. split_and!.
  - rewrite Hlast. reflexivity.
  - rewrite Hlast. reflexivity.
  - rewrite Hlast. reflexivity.
  - apply (Hskip ∅). left. reflexivity.
Defined.

End worked_examples.

(** * The store functions on their own *)

Section store.

Import models session crud spec.

Implicit Types (s : Session) (r : Quote) (rows : list Quote) (b q : string).

Lemma row_at_Some b q ts rows r :
  row_at b q ts rows = Some r →
  r ∈ rows ∧ base r = b ∧ quote r = q ∧ timestamp r ≤ ts ∧
  ∀ x, x ∈ rows → base x = b → quote x = q → timestamp x ≤ ts → timestamp x ≤ timestamp r.
Proof.
  intros [Hin Hmax]%order_by_timestamp_desc_limit_1_Some.
  apply list_elem_of_filter in Hin as [(Hb & Hq & Hts) Hin]. split_and!; try done.
  intros x Hx Hxb Hxq Hxts. apply Hmax, list_elem_of_filter. done.
Qed.

Lemma row_at_None b q ts rows :
  row_at b q ts rows = None ↔
  ∀ x, x ∈ rows → ¬ (base x = b ∧ quote x = q ∧ timestamp x ≤ ts).
Proof.
  split.
  - intros [_ Hnil]%foldl_later_None x Hx HP.
    revert Hx. eapply filter_nil_not_elem_of; [exact Hnil|exact HP].
  - intros Hno. unfold row_at, select_pair_upto.
    replace (filter _ rows) with (@nil Quote); [done|].
    symmetry. induction rows as [|x rows IH]; [done|].
    rewrite filter_cons_False by (apply Hno, elem_of_cons; by left).
    apply IH. intros y Hy. apply Hno, elem_of_cons. by right.
Qed.

(** X1. [get_latest_quote] never raises and changes no row.  The row it
    returns is a row of the pair asked for that no row of the pair is newer
    than, and it returns [None] exactly when the table has no row of the
    pair. *)
Theorem get_latest_quote_newest b q s :
  let run := get_latest_quote b q s in
  (∃ found, value run = inr found) ∧
  working (left_session run) = working s ∧
  committed (left_session run) = committed s ∧
  executed (left_session run) = executed s ++ [Select b q None] ∧
  (∀ r, value run = inr (Some r) →
     r ∈ working s ∧ base r = b ∧ quote r = q ∧
     ∀ x, x ∈ working s → base x = b → quote x = q → timestamp x ≤ timestamp r) ∧
  (value run = inr None ↔ ∀ x, x ∈ working s → ¬ (base x = b ∧ quote x = q)).
Proof.
  intros run. subst run. unfold get_latest_quote, execute_read, value, left_session. cbn.
  split_and!; try done; [by eexists| |].
  - intros r [= Hr]. by apply latest_row_Some.
  - rewrite <- latest_row_None. split; [by intros [= ->]|by intros ->].
Qed.


Lemma order_by_timestamp_desc_limit_1_snoc rows r :
  order_by_timestamp_desc_limit_1 (rows ++ [r]) =
  later (order_by_timestamp_desc_limit_1 rows) r.
Proof. unfold order_by_timestamp_desc_limit_1. by rewrite foldl_snoc. Qed.

(** X3. A save of a price that is a number commits the table with exactly
    one row added at the end, carrying the pair, the price and the clock
    reading; the rows that were there are untouched.  When, besides, every
    row of the pair is older than the clock reading, the saved row is the
    one [get_latest_quote] then finds.  (A NaN is refused by the store: see
    [crud.save_quote].) *)
Theorem save_quote_then_latest now b q p s :
  vocabulary.is_number p →
  let s' := left_session (save_quote now b q p s) in
  ∃ r, committed s' = working s ++ [r] ∧ working s' = committed s' ∧
       base r = b ∧ quote r = q ∧ price r = p ∧ timestamp r = now ∧
       ((∀ x, x ∈ working s → base x = b → quote x = q → timestamp x < now) →
        value (get_latest_quote b q s') = inr (Some r)).
Proof.
  intros _ s'. subst s'.
  unfold save_quote, get_latest_quote, execute_write, execute_read, commit, value,
    left_session, mbind, orm_bind. cbn.
  eexists. split_and!; try reflexivity. intros Hold. f_equal. f_equal.
  unfold latest_row, select_pair. rewrite filter_app, filter_cons_True by done.
  rewrite filter_nil, order_by_timestamp_desc_limit_1_snoc.
  destruct (order_by_timestamp_desc_limit_1 _) as [old|] eqn:Hf; [|done].
  apply order_by_timestamp_desc_limit_1_Some in Hf as [Hin _].
  apply list_elem_of_filter in Hin as [[Hb Hq] Hin].
  cbn. rewrite bool_decide_eq_true_2; [done|]. cbn. by apply Hold.
Qed.

(** X4. A cleanup that follows a save of a price that is a number keeps the
    saved row as long as the retention setting is not negative and no more
    than the retention window passes between the two clock readings.  With
    a negative setting the cutoff lies after the clock reading of the
    cleanup; as long as it is still a [datetime], the cleanup deletes every
    row that is not in the future, the one saved at that very moment
    included.  (Past [datetime.max] the cutoff cannot be computed: see
    [crud.cleanup_old_quotes].) *)
Theorem cleanup_after_save cfg now now' b q p s :
  vocabulary.is_number p →
  let saved := left_session (save_quote now b q p s) in
  let after := committed (left_session (cleanup_old_quotes cfg now' saved)) in
  (0 ≤ config.QUOTE_RETENTION_DAYS cfg →
   now' - now ≤ timedelta_days (config.QUOTE_RETENTION_DAYS cfg) →
   ∃ r, r ∈ after ∧ base r = b ∧ quote r = q ∧ price r = p ∧ timestamp r = now) ∧
  (config.QUOTE_RETENTION_DAYS cfg < 0 →
   vocabulary.datetime_min ≤ now' →
   now' - timedelta_days (config.QUOTE_RETENTION_DAYS cfg) ≤ vocabulary.datetime_max →
   ∀ r, r ∈ after → now' < timestamp r).
Proof.
  intros _ saved after. subst saved after.
  unfold save_quote, cleanup_old_quotes, execute_write, commit, left_session, mbind, orm_bind.
  cbn -[timedelta_days]. split.
  - intros Hdays Hwindow.
    exists {| id := next_id (working s); base := b; quote := q; price := p;
              timestamp := now |}.
    split_and!; [|reflexivity..].
    apply list_elem_of_filter. split; [cbn; lia|].
    apply elem_of_app. right. by apply list_elem_of_singleton.
  - intros Hdays _ _ r [Hkeep _]%list_elem_of_filter.
    unfold timedelta_days in *. cbn in Hkeep. lia.
Qed.

End store.

(** * More on the conversion endpoint *)

Section resolver_more.

Import session spec routes.

Context `{Builtins}.

Implicit Types (s : Session) (r : models.Quote) (now : Z) (amount : float).

Ltac orm_run :=
  repeat (unfold mbind, orm_bind, mret, orm_ret, raise, crud.get_quote_at,
            crud.get_latest_quote, execute_read, execute_write, set_price, commit;
          cbn -[timedelta_minutes timedelta_days PrimFloat.eqb PrimFloat.ltb PrimFloat.div
                PrimFloat.mul crud.row_at crud.latest_row]).

(** The statements [convert_currency] sends, by cases on the direct lookup. *)
Lemma convert_currency_executed now amount from_currency to_currency timestamp s :
  executed (left_session (convert_currency now amount from_currency to_currency timestamp s)) =
  let b := upper from_currency in
  let q := upper to_currency in
  match looked_up timestamp b q (working s) with
  | Some _ => executed s ++ [Select b q timestamp]
  | None => executed s ++ [Select b q timestamp; Select q b timestamp]
  end.
Proof.
  unfold convert_currency, left_session, looked_up.
  destruct timestamp as [ts|]; orm_run.
  - destruct (crud.row_at _ _ ts (working s)) as [r|]; orm_run; [reflexivity|].
    destruct (crud.row_at _ _ ts (working s)) as [r|]; orm_run;
      [|by rewrite <- app_assoc].
    destruct (PrimFloat.eqb (models.price r) 0); by rewrite <- app_assoc.
  - destruct (crud.latest_row _ _ (working s)) as [r|]; orm_run.
    + case_bool_decide; reflexivity.
    + destruct (crud.latest_row _ _ (working s)) as [r|]; orm_run;
        [|by rewrite <- app_assoc].
      destruct (PrimFloat.eqb (models.price r) 0); orm_run; [by rewrite <- app_assoc|].
      case_bool_decide; by rewrite <- app_assoc.
Qed.

(** X5. [convert_currency] sends one lookup when the direct pair has a row
    and two when it has none, the second for the swapped pair with the same
    timestamp bound; it sends nothing else.  A direct row is never passed
    over for the swapped pair: whenever the direct lookup finds a row, an
    answer is not inverted, and a stale direct row on a request without
    timestamp is rejected whatever the swapped pair holds. *)
Theorem convert_currency_lookups now amount from_currency to_currency timestamp s :
  let b := upper from_currency in
  let q := upper to_currency in
  let run := convert_currency now amount from_currency to_currency timestamp s in
  (executed (left_session run) = executed s ++ [Select b q timestamp] ∨
   executed (left_session run) =
     executed s ++ [Select b q timestamp; Select q b timestamp]) ∧
  (∀ r, looked_up timestamp b q (working s) = Some r →
     executed (left_session run) = executed s ++ [Select b q timestamp] ∧
     (∀ c, value run = inr c → inverted c = false ∧ rate c = models.price r) ∧
     (timestamp = None → stale now r → value run = inl StaleQuote)) ∧
  (looked_up timestamp b q (working s) = None →
     executed (left_session run) =
       executed s ++ [Select b q timestamp; Select q b timestamp]).
Proof.
  intros b q run. subst run.
  pose proof (convert_currency_executed now amount from_currency to_currency timestamp s)
    as Hex.
  pose proof (convert_currency_value now amount from_currency to_currency timestamp s)
    as Hval.
  cbn zeta in Hex, Hval. fold b q in Hex, Hval.
  split_and!.
  - destruct (looked_up timestamp b q (working s)); [by left|by right].
  - intros r Hr. rewrite Hr in Hex, Hval. split_and!; [done| |].
    + intros c. rewrite Hval. case_bool_decide; [done|]. by intros [= <-].
    + intros Hts Hstale. rewrite Hval. by rewrite bool_decide_eq_true_2.
  - intros Hnone. by rewrite Hnone in Hex.
Qed.

(** X6. A request with an explicit timestamp earlier than every stored row
    is answered not-found, even when the pair has rows. *)
Theorem convert_before_first_row now amount from_currency to_currency ts s :
  (∀ x, x ∈ working s → ts < models.timestamp x) →
  value (convert_currency now amount from_currency to_currency (Some ts) s)
  = inl PairNotAvailable.
Proof.
  intros Hlater. rewrite convert_currency_value. cbn zeta. unfold looked_up.
  assert (∀ b q, crud.row_at b q ts (working s) = None) as Hnone.
  { intros b q. apply row_at_None. intros x Hx (_ & _ & Hts).
    specialize (Hlater x Hx). lia. }
  by rewrite !Hnone.
Qed.

(** X7. Every answer of [convert_currency] rests on a row the session
    holds: it carries [base] and [quote] in upper case, the amount asked
    for, [amount_out = amount_in * rate] and the timestamp of a row that is
    either a row of the pair, whose price is the rate, or a row of the
    swapped pair with a price that is not zero, whose reciprocal is the
    rate.  On a request without timestamp that row is not older than one
    minute; on a request with a timestamp it is not later than it. *)
Theorem convert_currency_sound now amount from_currency to_currency timestamp s c :
  value (convert_currency now amount from_currency to_currency timestamp s) = inr c →
  base c = upper from_currency ∧ quote c = upper to_currency ∧
  amount_in c = amount ∧ amount_out c = (amount_in c * rate c)%float ∧
  (∃ r, r ∈ working s ∧ routes.timestamp c = models.timestamp r ∧
        ((inverted c = false ∧ models.base r = base c ∧ models.quote r = quote c ∧
          rate c = models.price r) ∨
         (inverted c = true ∧ models.base r = quote c ∧ models.quote r = base c ∧
          PrimFloat.eqb (models.price r) 0 = false ∧
          rate c = (1 / models.price r)%float))) ∧
  (timestamp = None → now - routes.timestamp c ≤ timedelta_minutes 1) ∧
  (∀ ts, timestamp = Some ts → routes.timestamp c ≤ ts).
Proof.
  rewrite convert_currency_value. cbn zeta.
  set (b := upper from_currency). set (q := upper to_currency).
  assert (∀ b' q' r, looked_up timestamp b' q' (working s) = Some r →
            r ∈ working s ∧ models.base r = b' ∧ models.quote r = q' ∧
            ∀ ts, timestamp = Some ts → models.timestamp r ≤ ts) as Hfound.
  { intros b' q' r Hr. destruct timestamp as [ts|]; cbn in Hr.
    - apply row_at_Some in Hr as (? & ? & ? & ? & _). split_and!; try done.
      by intros ? [= <-].
    - apply latest_row_Some in Hr as (? & ? & ? & _). by split_and!. }
  destruct (looked_up timestamp b q (working s)) as [r|] eqn:Hdirect.
  - case_bool_decide as Hstale; [done|]. intros [= <-]. cbn.
    destruct (Hfound _ _ _ Hdirect) as (Hin & Hb & Hq & Hts).
    split_and!; try done.
    + exists r. split_and!; try done. left. by split_and!.
    + intros ->. unfold stale in Hstale.
      destruct (decide (timedelta_minutes 1 < now - models.timestamp r)); [|lia].
      exfalso. by apply Hstale.
  - destruct (looked_up timestamp q b (working s)) as [r|] eqn:Hswapped; [|done].
    destruct (PrimFloat.eqb (models.price r) 0) eqn:Hzero; [done|].
    case_bool_decide as Hstale; [done|]. intros [= <-]. cbn.
    destruct (Hfound _ _ _ Hswapped) as (Hin & Hb & Hq & Hts).
    split_and!; try done.
    + exists r. split_and!; try done. right. by split_and!.
    + intros ->. unfold stale in Hstale.
      destruct (decide (timedelta_minutes 1 < now - models.timestamp r)); [|lia].
      exfalso. by apply Hstale.
Qed.

End resolver_more.

(** * More on batching and streaming *)

Section consumer_more.

Import consumer spec.

Context `{Builtins}.

Implicit Types (table : gmap string Pair) (prices : gmap Pair float) (msg : Msg)
  (msgs : list Msg) (pair : Pair) (batch : list Market) (st : Supervisor)
  (attempts : list Attempt).

Lemma range_zero_step (start stop : Z) : range start stop 0 = None.
Proof. reflexivity. Qed.

Lemma range_backwards (stop step : Z) : 0 ≤ stop → step < 0 → range 0 stop step = Some [].
Proof.
  intros Hstop Hstep. unfold range, range_len.
  rewrite (proj2 (Z.eqb_neq step 0)) by lia.
  rewrite (proj2 (Z.ltb_ge 0 step)) by lia.
  by rewrite (proj2 (Z.ltb_ge stop 0)) by lia.
Qed.

(** X9. A limit of zero makes [chunked] raise, and a negative limit makes
    it yield no batch at all, whatever the list: the markets are dropped
    without an error. *)
Theorem chunked_non_positive {A} (l : list A) (n : Z) :
  n ≤ 0 → chunked l n = if decide (n = 0) then None else Some [].
Proof.
  intros Hn. unfold chunked.
  destruct (decide (n = 0)) as [->|Hne].
  - by rewrite range_zero_step.
  - by rewrite range_backwards by lia.
Qed.

(** X10. A limit at least as large as a non-empty list gives one batch, the
    list itself. *)
Theorem chunked_single_batch {A} (l : list A) (n : Z) :
  l ≠ [] → Z.of_nat (length l) ≤ n → chunked l n = Some [l].
Proof.
  intros Hl Hn. assert (0 < length l)%nat by (destruct l; [done|cbn; lia]).
  rewrite chunked_eq by lia.
  replace ((Z.of_nat (length l) + n - 1) / n) with 1.
  - change (Z.to_nat 1) with 1%nat. cbn [seq fmap list_fmap Nat.mul].
    rewrite drop_0. by rewrite take_ge by lia.
  - apply Z.div_unique with (r := Z.of_nat (length l) - 1); lia.
Qed.

Lemma sym_to_pair_snoc batch (b q sym : string) :
  sym_to_pair (batch ++ [(b, q, sym)]) =
  <[upper (String.append b q) := (b, q)]> (sym_to_pair batch).
Proof. unfold sym_to_pair. by rewrite foldl_snoc. Qed.

Lemma sym_to_pair_Some batch key (b q : string) :
  sym_to_pair batch !! key = Some (b, q) →
  key = upper (String.append b q) ∧ ∃ sym, (b, q, sym) ∈ batch.
Proof.
  revert key b q.
  induction batch as [|[[b0 q0] sym0] batch IH] using rev_ind; intros key b q Hk.
  { unfold sym_to_pair in Hk. cbn in Hk. by rewrite lookup_empty in Hk. }
  rewrite sym_to_pair_snoc in Hk.
  destruct (decide (upper (String.append b0 q0) = key)) as [<-|Hne].
  - rewrite lookup_insert_eq in Hk. injection Hk as <- <-. split; [done|].
    exists sym0. apply elem_of_app. right. by apply list_elem_of_singleton.
  - rewrite lookup_insert_ne in Hk by done.
    destruct (IH _ _ _ Hk) as [-> [sym Hin]]. split; [done|].
    exists sym. apply elem_of_app. by left.
Qed.

(** X11. The lookup table of a batch sends a symbol to a pair only if the
    pair is a market of the batch and the symbol is its base and quote joined
    and put in upper case; every market of the batch has its symbol in the
    table; and of two markets with the same symbol the later one is the one
    the table keeps. *)
Theorem sym_to_pair_lookup batch :
  (∀ key (b q : string), sym_to_pair batch !! key = Some (b, q) →
     key = upper (String.append b q) ∧ ∃ sym, (b, q, sym) ∈ batch) ∧
  (∀ (b q sym : string), (b, q, sym) ∈ batch →
     is_Some (sym_to_pair batch !! upper (String.append b q))) ∧
  (∀ before after (b q sym : string),
     batch = before ++ (b, q, sym) :: after →
     (∀ (b' q' sym' : string), (b', q', sym') ∈ after →
        upper (String.append b' q') ≠ upper (String.append b q)) →
     sym_to_pair batch !! upper (String.append b q) = Some (b, q)).
Proof.
  split_and!.
  - intros key b q. apply sym_to_pair_Some.
  - induction batch as [|[[b0 q0] sym0] batch IH] using rev_ind; intros b q sym Hin.
    { by apply elem_of_nil in Hin. }
    rewrite sym_to_pair_snoc.
    destruct (decide (upper (String.append b0 q0) = upper (String.append b q))) as [->|Hne].
    + rewrite lookup_insert_eq. by eexists.
    + rewrite lookup_insert_ne by done.
      apply elem_of_app in Hin as [Hin|Hin%list_elem_of_singleton]; [by eapply IH|].
      by injection Hin as -> -> ->.
  - intros before after. revert batch.
    induction after as [|[[b1 q1] sym1] after IH] using rev_ind;
      intros batch b q sym -> Hlast.
    + change (before ++ [(b, q, sym)]) with (before ++ [(b, q, sym)]).
      by rewrite sym_to_pair_snoc, lookup_insert_eq.
    + replace (before ++ (b, q, sym) :: after ++ [(b1, q1, sym1)])
        with ((before ++ (b, q, sym) :: after) ++ [(b1, q1, sym1)])
        by (by rewrite <- app_assoc).
      rewrite sym_to_pair_snoc, lookup_insert_ne.
      * eapply IH; [done|]. intros b' q' sym' Hin. eapply Hlast.
        apply elem_of_app. by left.
      * eapply Hlast. apply elem_of_app. right. by apply list_elem_of_singleton.
Qed.

(** One message adds at most the pair the table gives for its symbol. *)
Lemma on_message_dom table prices msg pair :
  is_Some (on_message table prices msg !! pair) →
  is_Some (prices !! pair) ∨ ∃ key, table !! key = Some pair.
Proof.
  rewrite on_message_lookup. unfold tick_for.
  destruct (msg !! "s") as [sym|]; [|by left].
  destruct (msg !! "c") as [price_str|]; [|by left].
  case_decide as Hs; [|by left]. destruct Hs as [_ Hs].
  destruct (float_of_str price_str); [|by left]. intros _. right. by exists sym.
Qed.

Lemma stream_dom table prices msgs pair :
  is_Some (stream table prices msgs !! pair) →
  is_Some (prices !! pair) ∨ ∃ key, table !! key = Some pair.
Proof.
  induction msgs as [|msg msgs IH] using rev_ind; [by left|].
  unfold stream in *. rewrite foldl_snoc. intros [Hp|Hk]%on_message_dom; [|by right].
  by apply IH.
Qed.

(** A price once held is never dropped. *)
Lemma on_message_keeps table prices msg pair :
  is_Some (prices !! pair) → is_Some (on_message table prices msg !! pair).
Proof.
  rewrite on_message_lookup. by destruct (tick_for table pair msg).
Qed.

Lemma stream_keeps table prices msgs pair :
  is_Some (prices !! pair) → is_Some (stream table prices msgs !! pair).
Proof.
  unfold stream. revert prices.
  induction msgs as [|msg msgs IH]; intros prices Hp; [done|].
  cbn. by apply IH, on_message_keeps.
Qed.

Lemma stream_app table prices msgs1 msgs2 :
  stream table prices (msgs1 ++ msgs2) = stream table (stream table prices msgs1) msgs2.
Proof. unfold stream. by rewrite foldl_app. Qed.

(** The map [supervise] leaves is the map of one stream carrying the
    messages of the passes it made, in their order. *)
Lemma supervise_latest table st attempts :
  ∃ made, made `prefix_of` attempts ∧
    latest (supervise table st attempts) =
    stream table (latest st) (concat (inbound <$> made)).
Proof.
  revert st. induction attempts as [|a attempts IH]; intros st.
  { exists []. split; [done|]. reflexivity. }
  cbn [supervise]. unfold attempt.
  destruct (ending a) eqn:He; [destruct (cancelled_asleep a) eqn:Hc|].
  - exists [a]. split; [by apply prefix_cons, prefix_nil|].
    cbn. by rewrite app_nil_r.
  - destruct (IH {| latest := stream table (latest st) (inbound a);
                    backoff := Z.min (1 * 2) 30; slept := slept st ++ [1] |})
      as (made & Hpre & Hl).
    exists (a :: made). split; [by apply prefix_cons|].
    rewrite Hl. cbn [latest fmap list_fmap concat]. by rewrite stream_app.
  - exists [a]. split; [by apply prefix_cons, prefix_nil|].
    cbn. by rewrite app_nil_r.
Qed.

(** X12. Whatever the attempts and their messages, the map of [run_batch]
    holds prices for markets of its batch only. *)
Theorem run_batch_latest_in_batch batch attempts (b q : string) :
  is_Some (latest (run_batch batch attempts) !! (b, q)) →
  ∃ sym, (b, q, sym) ∈ batch.
Proof.
  unfold run_batch.
  destruct (supervise_latest (sym_to_pair batch)
              {| latest := ∅; backoff := 1; slept := [] |} attempts) as (made & _ & ->).
  cbn. intros [Hempty|[key Hkey]]%stream_dom.
  - rewrite lookup_empty in Hempty. by destruct Hempty.
  - by apply sym_to_pair_Some in Hkey as [_ ?].
Qed.

Lemma supervise_failed_latest table st attempts :
  Forall (λ a, ending a = Failed ∧ cancelled_asleep a = false) attempts →
  latest (supervise table st attempts) =
    stream table (latest st) (concat (inbound <$> attempts)).
Proof.
  intros Hall. revert st.
  induction Hall as [|a attempts [He Hc] _ IH]; intros st; [done|].
  cbn [supervise]. unfold attempt. rewrite He, Hc, IH.
  cbn [latest fmap list_fmap concat]. by rewrite stream_app.
Qed.

Lemma supervise_failed_app table st before rest :
  Forall (λ a, ending a = Failed ∧ cancelled_asleep a = false) before →
  supervise table st (before ++ rest) = supervise table (supervise table st before) rest.
Proof.
  intros Hall. revert st.
  induction Hall as [|a before [He Hc] _ IH]; intros st; [done|].
  cbn [app supervise]. unfold attempt. rewrite He, Hc. apply IH.
Qed.

Lemma supervise_cancelled table st a after :
  ending a = Cancelled ∨ cancelled_asleep a = true →
  supervise table st (a :: after) = supervise table st [a] ∧
  latest (supervise table st [a]) = stream table (latest st) (inbound a).
Proof.
  intros Hcancel. cbn [supervise]. unfold attempt.
  destruct (ending a); [|done].
  destruct Hcancel as [?| ->]; done.
Qed.

(** X13. Reconnecting loses no price: after attempts that all failed, none
    of them cancelled, the map is the one a single stream carrying all their
    messages in order would have left, so each pair is at the price of its
    last tick over all the connections. *)
Theorem run_batch_keeps_prices_across_reconnects batch attempts pair :
  Forall (λ a, ending a = Failed ∧ cancelled_asleep a = false) attempts →
  latest (run_batch batch attempts) =
    stream (sym_to_pair batch) ∅ (concat (inbound <$> attempts)) ∧
  latest (run_batch batch attempts) !! pair =
    last_tick (sym_to_pair batch) pair (concat (inbound <$> attempts)).
Proof.
  intros Hall. unfold run_batch. rewrite supervise_failed_latest by done.
  cbn [latest]. split; [done|].
  rewrite stream_lookup, lookup_empty. by destruct (last_tick _ _ _).
Qed.

(** X14. A cancellation ends [run_batch]: the attempts that would follow a
    cancelled one, cancelled while streaming or during the sleep before the
    reconnect, are never made, and the messages the cancelled attempt
    received are still put in the map. *)
Theorem run_batch_stops_at_cancellation batch before a after :
  Forall (λ a, ending a = Failed ∧ cancelled_asleep a = false) before →
  ending a = Cancelled ∨ cancelled_asleep a = true →
  run_batch batch (before ++ a :: after) = run_batch batch (before ++ [a]) ∧
  latest (run_batch batch (before ++ a :: after)) =
    stream (sym_to_pair batch) ∅ (concat (inbound <$> before) ++ inbound a).
Proof.
  intros Hall Hcancel. unfold run_batch.
  rewrite !supervise_failed_app by done.
  destruct (supervise_cancelled (sym_to_pair batch)
              (supervise (sym_to_pair batch) {| latest := ∅; backoff := 1; slept := [] |}
                 before) a after Hcancel) as [-> Hlatest].
  split; [done|].
  rewrite Hlatest, supervise_failed_latest by done. cbn [latest].
  by rewrite stream_app.
Qed.

End consumer_more.

(** * Discovering the markets *)

Section discovery.

Import consumer binance vocabulary.

Context `{Builtins, TextBuiltins}.

Implicit Types (filt : gset string) (sym : Symbol) (symbols : list Symbol)
  (pairs : list Market) (m : Market).

Lemma collect_Some filt symbols pairs result :
  collect filt symbols pairs = Some result →
  ∃ new, result = pairs ++ new ∧ (length new ≤ length symbols)%nat ∧
         ∀ m, m ∈ new ↔ ∃ sym, sym ∈ symbols ∧ let_through filt sym m.
Proof.
  revert pairs. induction symbols as [|sym symbols IH]; intros pairs Hc; cbn in Hc.
  { injection Hc as <-. exists []. rewrite app_nil_r. split_and!; [done..|].
    intros m. split; [by intros ?%elem_of_nil|]. by intros (? & ?%elem_of_nil & _). }
  assert (∀ new : list Market,
            (∀ m, m ∈ new ↔ ∃ s, s ∈ symbols ∧ let_through filt s m) →
            (∀ m, ¬ let_through filt sym m) →
            ∀ m, m ∈ new ↔ ∃ s, s ∈ sym :: symbols ∧ let_through filt s m) as Hskip.
  { intros new Hnew Hno m. rewrite Hnew. split.
    - intros (s & Hs & Ht). exists s. split; [by apply elem_of_cons; right|done].
    - intros (s & [->|Hs]%elem_of_cons & Ht); [by destruct (Hno m)|by exists s]. }
  destruct (status_ok sym && spot_ok sym) eqn:Hok; cbn in Hc.
  - apply andb_true_iff in Hok as [Hstatus Hspot].
    destruct (baseAsset sym) as [base_asset|] eqn:Hb; [|done].
    destruct (quoteAsset sym) as [quote_asset|] eqn:Hq; [|done].
    case_bool_decide as Hf.
    + apply IH in Hc as (new & -> & Hlen & Hnew).
      exists new. split_and!; [done|cbn; lia|]. apply Hskip; [done|].
      intros m (_ & _ & b' & q' & Hb' & Hq' & Hpass & _).
      rewrite Hb in Hb'. rewrite Hq in Hq'. injection Hb' as <-. injection Hq' as <-.
      destruct Hf as [Hne Hnotin]. by destruct Hpass.
    + apply IH in Hc as (new & -> & Hlen & Hnew).
      eexists (_ :: new). split_and!; [by rewrite <- app_assoc|cbn; lia|].
      intros m. rewrite elem_of_cons, Hnew. split.
      * intros [->|(s & Hs & Ht)].
        -- exists sym. split; [by apply elem_of_cons; left|].
           split_and!; [done..|]. exists base_asset, quote_asset. split_and!; try done.
           destruct (decide (filt = ∅)) as [?|Hne]; [by left|right].
           destruct (decide (upper quote_asset ∈ filt)) as [?|Hnotin]; [done|].
           by destruct Hf.
        -- exists s. split; [by apply elem_of_cons; right|done].
      * intros (s & [->|Hs]%elem_of_cons & Ht); [left|right; by exists s].
        destruct Ht as (_ & _ & b' & q' & Hb' & Hq' & _ & ->). congruence.
  - apply IH in Hc as (new & -> & Hlen & Hnew).
    exists new. split_and!; [done|cbn; lia|]. apply Hskip; [done|].
    intros m (Hstatus & Hspot & _). by rewrite Hstatus, Hspot in Hok.
Qed.

Lemma collect_None filt symbols pairs :
  collect filt symbols pairs = None ↔
  ∃ sym, sym ∈ symbols ∧ status_ok sym = true ∧ spot_ok sym = true ∧
         (baseAsset sym = None ∨ quoteAsset sym = None).
Proof.
  revert pairs. induction symbols as [|sym symbols IH]; intros pairs; cbn.
  { split; [done|]. by intros (? & ?%elem_of_nil & _). }
  assert ((∃ s, s ∈ symbols ∧ status_ok s = true ∧ spot_ok s = true ∧
                (baseAsset s = None ∨ quoteAsset s = None)) →
          ∃ s, s ∈ sym :: symbols ∧ status_ok s = true ∧ spot_ok s = true ∧
               (baseAsset s = None ∨ quoteAsset s = None)) as Hlater.
  { intros (s & Hs & Hrest). exists s. split; [by apply elem_of_cons; right|done]. }
  destruct (status_ok sym && spot_ok sym) eqn:Hok; cbn.
  - apply andb_true_iff in Hok as [Hstatus Hspot].
    destruct (baseAsset sym) as [base_asset|] eqn:Hb.
    + destruct (quoteAsset sym) as [quote_asset|] eqn:Hq.
      * assert (∀ acc, collect filt symbols acc = None ↔
                  ∃ s, s ∈ sym :: symbols ∧ status_ok s = true ∧ spot_ok s = true ∧
                       (baseAsset s = None ∨ quoteAsset s = None)) as Hgo.
        { intros acc. rewrite IH. split; [done|].
          intros (s & [->|Hs]%elem_of_cons & Hst & Hsp & Hmiss); [|by exists s].
          destruct Hmiss; congruence. }
        case_bool_decide; apply Hgo.
      * split; [intros _|done]. exists sym. split; [by apply elem_of_cons; left|].
        by split_and!; [..|right].
    + split; [intros _|done]. exists sym. split; [by apply elem_of_cons; left|].
      by split_and!; [..|left].
  - rewrite IH. split; [done|].
    intros (s & [->|Hs]%elem_of_cons & Hst & Hsp & Hmiss); [|by exists s].
    by rewrite Hst, Hsp in Hok.
Qed.

(** X15. When [fetch_spot_pairs] returns, the markets it returns are
    exactly those of the listed symbols whose status is [TRADING], that are
    spot (by permission or by flag) and whose quote asset, in upper case, is
    in the filter of the setting, or any quote asset when that filter is
    empty; each is returned as (base, quote) in upper case with the two
    joined in lower case as its stream name, and there are no more markets
    than symbols. *)
Theorem fetch_spot_pairs_selection SUPPORTED_QUOTES symbols pairs :
  fetch_spot_pairs SUPPORTED_QUOTES symbols = Some pairs →
  (length pairs ≤ length symbols)%nat ∧
  ∀ b q symbol_lc,
    (b, q, symbol_lc) ∈ pairs ↔
    ∃ sym base_asset quote_asset,
      sym ∈ symbols ∧ status sym = Some "TRADING" ∧
      ("SPOT" ∈ default [] (permissions sym) ∨ isSpotTradingAllowed sym = Some true) ∧
      baseAsset sym = Some base_asset ∧ quoteAsset sym = Some quote_asset ∧
      (quote_filter SUPPORTED_QUOTES = ∅ ∨ upper quote_asset ∈ quote_filter SUPPORTED_QUOTES) ∧
      b = upper base_asset ∧ q = upper quote_asset ∧
      symbol_lc = lower (String.append b q).
Proof.
  intros (new & -> & Hlen & Hnew)%collect_Some. split; [done|].
  intros b q symbol_lc. cbn [app]. rewrite Hnew. unfold let_through, status_ok, spot_ok.
  split.
  - intros (sym & Hin & Hst%bool_decide_eq_true & Hsp & b0 & q0 & Hb & Hq & Hf & [= -> -> ->]).
    exists sym, b0, q0. split_and!; try done.
    apply orb_true_iff in Hsp as [Hp%bool_decide_eq_true|Hflag]; [by left|right].
    by destruct (isSpotTradingAllowed sym) as [[]|].
  - intros (sym & b0 & q0 & Hin & Hst & Hsp & Hb & Hq & Hf & -> & -> & ->).
    exists sym. split_and!; try done.
    + by apply bool_decide_eq_true.
    + apply orb_true_iff. destruct Hsp as [Hp| ->]; [left|by right].
      by apply bool_decide_eq_true.
    + by exists b0, q0.
Qed.

(** X16. [fetch_spot_pairs] raises [KeyError] exactly when some listed
    symbol that is trading and spot lacks its base or its quote asset; a
    symbol that is not trading or not spot is skipped before its assets are
    read, so it may lack them. *)
Theorem fetch_spot_pairs_key_error SUPPORTED_QUOTES symbols :
  fetch_spot_pairs SUPPORTED_QUOTES symbols = None ↔
  ∃ sym, sym ∈ symbols ∧ status_ok sym = true ∧ spot_ok sym = true ∧
         (baseAsset sym = None ∨ quoteAsset sym = None).
Proof. apply collect_None. Qed.

(** X17. [run_consumer] starts no batch when no market was discovered,
    without looking at the limit; with markets, a limit of zero makes it
    raise, a negative limit makes it start nothing, and a limit above zero
    makes it start batches that are not empty, no larger than the limit, and
    that together are the discovered markets in their order. *)
Theorem run_consumer_batches cfg pairs :
  let limit := config.MAX_STREAMS_PER_CONN cfg in
  (pairs = [] → run_consumer cfg pairs = Some []) ∧
  (pairs ≠ [] → limit = 0 → run_consumer cfg pairs = None) ∧
  (pairs ≠ [] → limit < 0 → run_consumer cfg pairs = Some []) ∧
  (pairs ≠ [] → 0 < limit →
     ∃ batches, run_consumer cfg pairs = Some batches ∧ batches ≠ [] ∧
       concat batches = pairs ∧
       Forall (λ batch, 0 < Z.of_nat (length batch) ≤ limit) batches).
Proof.
  intros limit. subst limit. unfold run_consumer. split_and!.
  - by intros ->.
  - intros Hne ->. destruct pairs; [done|]. unfold chunked. by rewrite range_zero_step.
  - intros Hne Hneg. destruct pairs as [|p pairs]; [done|].
    unfold chunked. by rewrite range_backwards by lia.
  - intros Hne Hpos. set (M := config.MAX_STREAMS_PER_CONN cfg) in *.
    assert (chunked pairs M = Some
              ((λ k, take (Z.to_nat M) (drop (k * Z.to_nat M) pairs))
                 <$> seq 0 (Z.to_nat ((Z.of_nat (length pairs) + M - 1) / M)))) as Heq
      by (by apply chunked_eq).
    destruct pairs as [|p pairs'] eqn:Hp; [done|]. rewrite <- Hp in *.
    assert (0 < length pairs)%nat as Hlen by (rewrite Hp; cbn; lia).
    eexists. split; [exact Heq|].
    destruct (ceiling_bounds (Z.of_nat (length pairs)) M) as (Hc0 & Hup & Hlow); [lia..|].
    set (C := (Z.of_nat (length pairs) + M - 1) / M) in *.
    assert (Z.of_nat (Z.to_nat M) = M) as Hm by lia.
    split_and!.
    + assert (0 < C) by nia. intros Hnil%(f_equal length).
      rewrite length_fmap, length_seq in Hnil. cbn in Hnil. lia.
    + rewrite concat_chunks, drop_0. apply take_ge.
      apply Nat2Z.inj_le. rewrite Nat2Z.inj_mul, Hm, Z2Nat.id by done. done.
    + apply Forall_fmap, Forall_forall. intros k Hk%elem_of_seq. cbn.
      rewrite length_take, length_drop.
      assert (Z.of_nat k * M < Z.of_nat (length pairs)) by nia.
      assert (Z.of_nat (k * Z.to_nat M) = Z.of_nat k * M) by (rewrite Nat2Z.inj_mul; lia).
      lia.
Qed.

End discovery.

(** * The saver task *)

Section flushing.

Import session consumer saver vocabulary.

Implicit Types (s : Session) (p : Pass) (st : Saver) (db : list models.Quote)
  (entries : list (Pair * float * Z)).

Ltac orm_steps :=
  repeat (unfold mbind, orm_bind, mret, orm_ret, crud.cleanup_old_quotes, execute_write,
            commit;
          cbn -[timedelta_days]).

Lemma run_all_app (ops1 ops2 : list (Orm unit)) s :
  run_all (ops1 ++ ops2) s =
  match run_all ops1 s with
  | (inl e, s') => (inl e, s')
  | (inr _, s') => run_all ops2 s'
  end.
Proof.
  revert s. induction ops1 as [|op ops1 IH]; intros s; [done|].
  cbn [app run_all]. unfold mbind, orm_bind.
  destruct (op s) as [[e|[]] s1]; [done|]. apply IH.
Qed.

Lemma save_entry_run (item : Pair * float * Z) s :
  ∃ r s1, save_entry item s = (inr (), s1) ∧ committed s1 = working s1 ∧
          working s1 = working s ++ [r] ∧ row_data r = item_data item.
Proof.
  destruct item as [[[b q] price] now]. by eexists _, _.
Qed.

(** The saves of a flush store one row per entry, in order, after the rows
    that were there. *)
Lemma run_saves entries s :
  committed s = working s →
  ∃ rows s', run_all (save_entry <$> entries) s = (inr (), s') ∧
             committed s' = working s' ∧ working s' = working s ++ rows ∧
             row_data <$> rows = item_data <$> entries.
Proof.
  revert s. induction entries as [|item entries IH]; intros s Hs.
  { exists [], s. by rewrite app_nil_r. }
  cbn [fmap list_fmap run_all].
  destruct (save_entry_run item s) as (r & s1 & Hsave & Hc1 & Hw1 & Hd1).
  destruct (IH s1 Hc1) as (rows & s' & Hrun & Hc & Hw & Hd).
  exists (r :: rows), s'. unfold mbind, orm_bind. rewrite Hsave, Hrun.
  split_and!; [done|done| |].
  - rewrite Hw, Hw1. by rewrite <- app_assoc.
  - cbn. by rewrite Hd1, Hd.
Qed.

Lemma operations_eq cfg p :
  operations cfg p = (save_entry <$> items p) ++ [crud.cleanup_old_quotes cfg (cleanup_now p)].
Proof. reflexivity. Qed.

(** X18. A flush in which nothing raises stores one row for every entry of
    the map, in the order of the entries, each with the entry's pair, price
    and clock reading, whatever the table already holds for the pair; then
    the cleanup runs on the table so extended. *)
Theorem flush_writes_every_entry cfg p db :
  raises_at p = None →
  ∃ rows,
    row_data <$> rows = item_data <$> items p ∧
    flush cfg p db =
      (filter (λ r, ¬ models.timestamp r
                      < cleanup_now p - timedelta_days (config.QUOTE_RETENTION_DAYS cfg))
         (db ++ rows), true).
Proof.
  intros Hnone. unfold flush. rewrite Hnone, operations_eq.
  destruct (run_saves (items p) (AsyncSessionLocal db)) as (rows & s' & Hrun & Hc & Hw & Hd);
    [done|].
  exists rows. split; [done|]. f_equal.
  unfold get_session. rewrite run_all_app, Hrun.
  cbn [run_all]. orm_steps. by rewrite Hw.
Qed.

(** X19. When a store operation of a flush raises, the entries saved before
    it stay stored, each save having been committed by itself, the later
    entries are not stored and no row is deleted. *)
Theorem flush_failure_keeps_earlier_saves cfg p db (k : nat) :
  raises_at p = Some k → (k ≤ length (items p))%nat →
  ∃ rows,
    row_data <$> rows = item_data <$> take k (items p) ∧
    flush cfg p db = (db ++ rows, false).
Proof.
  intros Hk Hle. unfold flush. rewrite Hk, operations_eq.
  rewrite bool_decide_eq_true_2
    by (rewrite length_app, length_fmap; cbn; lia).
  rewrite take_app_le by (rewrite length_fmap; lia).
  rewrite <- fmap_take.
  destruct (run_saves (take k (items p)) (AsyncSessionLocal db))
    as (rows & s' & Hrun & Hc & Hw & Hd); [done|].
  exists rows. split; [done|]. f_equal.
  unfold get_session. rewrite Hrun. cbn. by rewrite Hc, Hw.
Qed.

Lemma pass_steady cfg st p :
  first_flush_done st = true →
  first_flush_done (pass cfg st p) = true ∧
  naps (pass cfg st p) = naps st ++ [Interval (config.QUOTE_SAVE_INTERVAL cfg)].
Proof.
  intros Hdone. unfold pass. rewrite Hdone. cbn [negb].
  by destruct (items p).
Qed.

(** X20. The two phases of the saver.  As long as the map is empty it only
    polls: it stores nothing and stays in its first phase.  The first pass
    that finds prices and flushes them without a raise ends the first phase;
    a flush that raises in the first phase leaves the saver in it, so the
    next try comes after a poll of 0.01 and not after the interval.  Once
    the first phase has ended it never comes back: every later pass sleeps
    the whole interval, whatever happens to its flush. *)
Theorem saver_phases cfg :
  (∀ db passes, Forall (λ p, items p = []) passes →
     run cfg db passes =
       {| first_flush_done := false; database := db;
          naps := replicate (length passes) Poll |}) ∧
  (∀ st p, first_flush_done st = false → items p ≠ [] → raises_at p = None →
     first_flush_done (pass cfg st p) = true ∧ naps (pass cfg st p) = naps st ++ [Poll]) ∧
  (∀ st p (k : nat), first_flush_done st = false → items p ≠ [] →
     raises_at p = Some k → (k ≤ length (items p))%nat →
     first_flush_done (pass cfg st p) = false ∧ naps (pass cfg st p) = naps st ++ [Poll]) ∧
  (∀ st passes, first_flush_done st = true →
     first_flush_done (foldl (pass cfg) st passes) = true ∧
     naps (foldl (pass cfg) st passes) =
       naps st ++ replicate (length passes) (Interval (config.QUOTE_SAVE_INTERVAL cfg))).
Proof.
  split_and!.
  - intros db passes Hall. unfold run.
    assert (∀ st, first_flush_done st = false →
              foldl (pass cfg) st passes =
                {| first_flush_done := false; database := database st;
                   naps := naps st ++ replicate (length passes) Poll |}) as Hgo.
    { induction Hall as [|p passes Hp _ IH]; intros st Hst.
      - cbn. rewrite app_nil_r. by destruct st; cbn in *; subst.
      - cbn [foldl]. rewrite IH; unfold pass; rewrite Hst, Hp; cbn; [|done].
        by rewrite <- app_assoc. }
    by rewrite Hgo.
  - intros st p Hst Hitems Hnone. unfold pass, flush. rewrite Hst, Hnone. cbn [negb].
    by destruct (items p).
  - intros st p k Hst Hitems Hk Hle. unfold pass, flush. rewrite Hst, Hk, operations_eq.
    rewrite bool_decide_eq_true_2 by (rewrite length_app, length_fmap; cbn; lia).
    cbn [negb]. by destruct (items p).
  - intros st passes. revert st.
    induction passes as [|p passes IH]; intros st Hst.
    { cbn. by rewrite app_nil_r. }
    cbn [foldl length replicate].
    destruct (pass_steady cfg st p Hst) as [Hdone Hnaps].
    destruct (IH _ Hdone) as [-> ->]. split; [done|].
    rewrite Hnaps. by rewrite <- app_assoc.
Qed.

(** X21. The saver stores nothing while the map is empty, in either phase,
    and a pass never removes a row that the retention window still covers
    at its cleanup: every row of the table that is not older than the window
    is still there after the pass. *)
Theorem saver_pass_keeps_recent_rows cfg st p r :
  r ∈ database st →
  ¬ models.timestamp r < cleanup_now p - timedelta_days (config.QUOTE_RETENTION_DAYS cfg) →
  r ∈ database (pass cfg st p) ∧
  (items p = [] → database (pass cfg st p) = database st).
Proof.
  intros Hin Hrecent.
  assert (r ∈ (flush cfg p (database st)).1) as Hflush.
  { unfold flush. rewrite operations_eq.
    assert (∀ k, r ∈ session.database
                   (get_session (database st)
                      (run_all (take k ((save_entry <$> items p) ++
                                        [crud.cleanup_old_quotes cfg (cleanup_now p)])))))
      as Hany.
    { intros k.
      destruct (decide (k ≤ length (items p))%nat) as [Hle|Hgt].
      - rewrite take_app_le by (rewrite length_fmap; lia). rewrite <- fmap_take.
        destruct (run_saves (take k (items p)) (AsyncSessionLocal (database st)))
          as (rows & s' & Hrun & Hc & Hw & Hd); [done|].
        unfold get_session. rewrite Hrun. cbn. rewrite Hc, Hw.
        apply elem_of_app. by left.
      - rewrite take_ge by (rewrite length_app, length_fmap; cbn; lia).
        destruct (run_saves (items p) (AsyncSessionLocal (database st)))
          as (rows & s' & Hrun & Hc & Hw & Hd); [done|].
        unfold get_session. rewrite run_all_app, Hrun.
        cbn [run_all]. orm_steps. rewrite Hw.
        apply list_elem_of_filter. split; [done|]. apply elem_of_app. by left. }
    specialize (Hany (length ((save_entry <$> items p) ++
                               [crud.cleanup_old_quotes cfg (cleanup_now p)]))) as Hall.
    rewrite firstn_all in Hall.
    destruct (raises_at p) as [k|]; [|done].
    case_bool_decide; [apply Hany|done]. }
  unfold pass. destruct (first_flush_done st); cbn [negb]; destruct (items p) eqn:Hitems.
  - by split.
  - split; [done|]. by intros [=].
  - by split.
  - rewrite <- Hitems in *. destruct (flush cfg p (database st)). by split; [|rewrite Hitems].
Qed.

End flushing.

(** * More worked examples *)

Section more_examples.

Import session spec routes consumer binance saver vocabulary.
Import example_builtins example_text examples example_runs.

(** Evaluate a closed comparison or equation. *)
Ltac evaluate :=
  vm_compute; first [reflexivity | discriminate | (intro; discriminate)].

(** Cases of a membership in an explicit list. *)
Ltac cases_of H :=
  apply list_elem_of_In in H; vm_compute in H;
  repeat (destruct H as [H|H]; [symmetry in H|]); try (exfalso; exact H).

Lemma get_latest_quote_newest_example :
  let s := AsyncSessionLocal [btc_usdt_old; btc_usdt] in
  models.timestamp btc_usdt_old ≤ models.timestamp btc_usdt ∧
  value (crud.get_latest_quote "ETH" "USDT" s) = inr None.
Proof.
  intros s.
  destruct (get_latest_quote_newest "BTC" "USDT" s) as (_ & _ & _ & _ & Hnewest & _).
  destruct (get_latest_quote_newest "ETH" "USDT" s) as (_ & _ & _ & _ & _ & Hnone).
  assert (value (crud.get_latest_quote "BTC" "USDT" s) = inr (Some btc_usdt)) as Hv
    by evaluate.
  split.
  - destruct (Hnewest btc_usdt Hv) as (_ & _ & _ & Hmax).
    apply Hmax; [|reflexivity..]. apply elem_of_cons. by left.
  - apply Hnone. intros x Hx [Hb _]. cases_of Hx; try subst x; vm_compute in Hb; discriminate Hb.
Defined.


Lemma save_quote_then_latest_example :
  let s := AsyncSessionLocal [btc_usdt_old] in
  let s' := left_session (crud.save_quote t0 "BTC" "USDT" 50000 s) in
  committed s' = [btc_usdt_old; btc_usdt_new] ∧
  value (crud.get_latest_quote "BTC" "USDT" s') = inr (Some btc_usdt_new).
Proof.
  intros s s'.
  assert (is_number 50000) as Hnum by reflexivity.
  destruct (save_quote_then_latest t0 "BTC" "USDT" 50000 s Hnum)
    as (r & Hc & _ & _ & _ & _ & _ & Hlatest).
  fold s' in Hc, Hlatest.
  assert (committed s' = [btc_usdt_old; btc_usdt_new]) as Hrows by reflexivity.
  assert (r = btc_usdt_new) as ->.
  { rewrite Hrows in Hc. change (working s ++ [r]) with [btc_usdt_old; r] in Hc.
    by injection Hc as <-. }
  split; [exact Hrows|]. apply Hlatest.
  intros x Hx _ _. cases_of Hx; subst x; evaluate.
Defined.

Lemma cleanup_after_save_example :
  let saved := left_session (crud.save_quote t0 "BTC" "USDT" 50000 (AsyncSessionLocal [])) in
  let after :=
    committed (left_session
                 (crud.cleanup_old_quotes config.settings (t0 + timedelta_minutes 1) saved)) in
  ∃ r, r ∈ after ∧ models.base r = "BTC" ∧ models.quote r = "USDT" ∧
       models.price r = 50000%float ∧ models.timestamp r = t0.
Proof.
  intros saved after.
  assert (is_number 50000) as Hnum by reflexivity.
  apply (proj1 (cleanup_after_save config.settings t0 (t0 + timedelta_minutes 1)
                  "BTC" "USDT" 50000 (AsyncSessionLocal []) Hnum)); evaluate.
Defined.

Lemma convert_currency_lookups_example :
  executed (left_session
              (convert_currency t0 10 "USDT" "DOGE" None (AsyncSessionLocal [doge_usdt t0])))
  = [Select "USDT" "DOGE" None; Select "DOGE" "USDT" None].
Proof.
  destruct (convert_currency_lookups t0 10 "USDT" "DOGE" None
              (AsyncSessionLocal [doge_usdt t0])) as (_ & _ & Hnone).
  apply Hnone. evaluate.
Defined.

Lemma convert_before_first_row_example :
  value (convert_currency t0 1 "BTC" "USDT" (Some (t0 - 1)) (AsyncSessionLocal [btc_usdt]))
  = inl PairNotAvailable.
Proof.
  apply convert_before_first_row. intros x Hx. cases_of Hx; try subst x; evaluate.
Defined.

Lemma convert_currency_sound_example :
  let c := {| base := "BTC"; quote := "USDT"; rate := 50000; amount_in := 2;
              amount_out := 100000; timestamp := t0; inverted := false |} in
  amount_out c = (amount_in c * rate c)%float ∧ t0 - routes.timestamp c ≤ timedelta_minutes 1.
Proof.
  intros c.
  assert (value (convert_currency t0 2 "btc" "usdt" None (AsyncSessionLocal [btc_usdt]))
          = inr c) as Hv by evaluate.
  destruct (convert_currency_sound t0 2 "btc" "usdt" None _ c Hv)
    as (_ & _ & _ & Hout & _ & Hfresh & _).
  split; [exact Hout|exact (Hfresh eq_refl)].
Defined.

Lemma chunked_non_positive_example :
  chunked ["btcusdt"; "ethusdt"] (-1) = Some [] ∧ chunked ["btcusdt"; "ethusdt"] 0 = None.
Proof.
  split.
  - apply (chunked_non_positive ["btcusdt"; "ethusdt"] (-1)). lia.
  - apply (chunked_non_positive ["btcusdt"; "ethusdt"] 0). lia.
Defined.

Lemma chunked_single_batch_example :
  chunked markets (config.MAX_STREAMS_PER_CONN config.settings) = Some [markets].
Proof. apply chunked_single_batch; [done|evaluate]. Defined.

Lemma sym_to_pair_lookup_example :
  sym_to_pair markets !! upper (String.append "BTC" "USDT") = Some ("BTC", "USDT").
Proof.
  destruct (sym_to_pair_lookup markets) as (_ & _ & Hlast).
  apply (Hlast [] [("ETH", "USDT", "ethusdt")] "BTC" "USDT" "btcusdt"); [reflexivity|].
  intros b' q' sym' Hin. cases_of Hin. injection Hin as -> -> _. evaluate.
Defined.

Lemma run_batch_latest_in_batch_example :
  ∃ sym, ("BTC", "USDT", sym) ∈ markets.
Proof.
  apply (run_batch_latest_in_batch markets [dropped frames] "BTC" "USDT").
  exists 50001%float. evaluate.
Defined.

Lemma run_batch_keeps_prices_across_reconnects_example :
  let attempts := [dropped (take 2 frames); dropped (drop 2 frames)] in
  latest (run_batch markets attempts) !! ("ETH", "USDT") = Some 1800.5%float.
Proof.
  intros attempts.
  assert (Forall (λ a, ending a = Failed ∧ cancelled_asleep a = false) attempts) as Hall
    by (repeat constructor).
  destruct (run_batch_keeps_prices_across_reconnects markets attempts ("ETH", "USDT") Hall)
    as [_ ->].
  evaluate.
Defined.

Lemma run_batch_stops_at_cancellation_example :
  run_batch markets [dropped (take 2 frames); cancelled (drop 2 frames); dropped frames]
  = run_batch markets [dropped (take 2 frames); cancelled (drop 2 frames)].
Proof.
  apply (run_batch_stops_at_cancellation markets [dropped (take 2 frames)]
           (cancelled (drop 2 frames)) [dropped frames]).
  - repeat constructor.
  - by left.
Defined.

Lemma fetch_spot_pairs_selection_example :
  (length [("BTC", "USDT", "btcusdt"); ("ETH", "USDC", "ethusdc")] ≤ length exchange)%nat.
Proof.
  assert (fetch_spot_pairs "USDT,USDC" exchange
          = Some [("BTC", "USDT", "btcusdt"); ("ETH", "USDC", "ethusdc")]) as Hfetch
    by evaluate.
  exact (proj1 (fetch_spot_pairs_selection _ _ _ Hfetch)).
Defined.

Lemma fetch_spot_pairs_key_error_example :
  fetch_spot_pairs "" (exchange ++ [half_named]) = None.
Proof.
  apply fetch_spot_pairs_key_error. exists half_named. split_and!.
  - apply elem_of_app. right. by apply list_elem_of_singleton.
  - reflexivity.
  - reflexivity.
  - by right.
Defined.

Lemma run_consumer_batches_example :
  ∃ batches, run_consumer config.settings markets = Some batches ∧ batches ≠ [] ∧
    concat batches = markets ∧
    Forall (λ batch, 0 < Z.of_nat (length batch) ≤ config.MAX_STREAMS_PER_CONN config.settings)
      batches.
Proof.
  destruct (run_consumer_batches config.settings markets) as (_ & _ & _ & Hstart).
  apply Hstart; [done|evaluate].
Defined.

Lemma flush_writes_every_entry_example :
  ∃ rows,
    row_data <$> rows = item_data <$> items full ∧
    flush config.settings full [] =
      (filter (λ r, ¬ models.timestamp r
                      < cleanup_now full
                        - timedelta_days (config.QUOTE_RETENTION_DAYS config.settings))
         ([] ++ rows), true).
Proof. apply flush_writes_every_entry. reflexivity. Defined.

Lemma flush_failure_keeps_earlier_saves_example :
  ∃ rows,
    row_data <$> rows = item_data <$> take 1 (items broken) ∧
    flush config.settings broken [] = ([] ++ rows, false).
Proof. apply flush_failure_keeps_earlier_saves; [reflexivity|cbn; lia]. Defined.

Lemma saver_phases_example :
  run config.settings [] [idle; idle] =
    {| first_flush_done := false; saver.database := []; naps := [Poll; Poll] |}.
Proof.
  apply (proj1 (saver_phases config.settings) [] [idle; idle]). by repeat constructor.
Defined.

Lemma saver_pass_keeps_recent_rows_example :
  let st := {| first_flush_done := true; saver.database := [btc_usdt]; naps := [] |} in
  btc_usdt ∈ saver.database (pass config.settings st full) ∧
  (items full = [] → saver.database (pass config.settings st full) = saver.database st).
Proof.
  intros st. apply saver_pass_keeps_recent_rows.
  - by apply list_elem_of_singleton.
  - evaluate.
Defined.

End more_examples.
